(** * ngx-scripts command-line helper: a shallow embedding of [index.js]

    The program is a small dispatcher ([NgxScriptsCli.run]) over four
    handlers that read the process environment, spawn external commands and
    touch the file system.  The development has three layers:

    - [Json]: the JavaScript values the handlers build, [JSON.stringify]
      (compact and indented) and [JSON.parse], with their round trip;
    - [Host]: the process environment, the file system and the external
      commands as an explicit world, and the handlers' effects as a small
      state-and-exception monad over it;
    - [Cli]: the handlers of [NgxScriptsCli], method by method, and the
      statements about them. *)

From Stdlib Require Import Ascii String ZArith Lia.
From stdpp Require Import base option list strings gmap.

Local Open Scope string_scope.
Local Open Scope list_scope.
Local Open Scope nat_scope.
#[local] Set Warnings "-register-all".

(** ** JavaScript values and JSON text *)

Module Json.

(** Values of the JavaScript heap the handlers see: what [JSON.parse] builds,
    plus [undefined], which a lookup of an unset environment variable yields.
    An object keeps its own properties in the order they were created
    (JavaScript lists names that are array indices first; no statement below
    depends on the order of the members of a text).  A number is kept as the
    literal that denotes it, a string as its sequence of bytes. *)
Inductive value : Type :=
| VUndefined
| VNull
| VBool (b : bool)
| VNum (lit : string)
| VStr (s : string)
| VArr (items : list value)
| VObj (props : list (string * value)).

Definition dquote : ascii := "034"%char.
Definition bslash : ascii := "092"%char.
Definition newline : ascii := "010"%char.

(** *** Property access *)

Fixpoint obj_get (props : list (string * value)) (k : string) : option value :=
  match props with
  | [] => None
  | (k', v) :: rest => if String.eqb k' k then Some v else obj_get rest k
  end.

(** [CreateDataProperty]: an existing own property keeps its place, a new one
    goes last.  This is what [JSON.parse] uses for every member it reads. *)
Fixpoint obj_define (props : list (string * value)) (k : string) (v : value)
  : list (string * value) :=
  match props with
  | [] => [(k, v)]
  | (k', v') :: rest =>
      if String.eqb k' k then (k, v) :: rest else (k', v') :: obj_define rest k v
  end.

(** [o[k] = v] on an ordinary object whose prototype is [Object.prototype]:
    the only inherited setter is the accessor [__proto__], which swaps the
    prototype when [v] is an object or [null] and otherwise does nothing; in
    neither case does it add an own property.  Every other name defines a
    data property. *)
Definition obj_assign (props : list (string * value)) (k : string) (v : value)
  : list (string * value) :=
  if String.eqb k "__proto__" then props else obj_define props k v.

Definition keys (props : list (string * value)) : list string := props.*1.

(** *** [JSON.stringify] *)

Definition hex_digit (n : N) : ascii :=
  ascii_of_N (if (n <? 10)%N then 48 + n else 87 + n)%N.

(** [QuoteJSONString], one code unit at a time. *)
Definition quote_char (c : ascii) : string :=
  let n := N_of_ascii c in
  if (n =? 34)%N then String bslash (String dquote "")
  else if (n =? 92)%N then String bslash (String bslash "")
  else if (n =? 8)%N then String bslash "b"
  else if (n =? 12)%N then String bslash "f"
  else if (n =? 10)%N then String bslash "n"
  else if (n =? 13)%N then String bslash "r"
  else if (n =? 9)%N then String bslash "t"
  else if (n <? 32)%N then
    String bslash (String "u" (String "0" (String "0"
      (String (hex_digit (n / 16)) (String (hex_digit (n mod 16)) "")))))
  else String c "".

Fixpoint quote_body (s : string) : string :=
  match s with
  | EmptyString => String dquote ""
  | String c r => quote_char c +:+ quote_body r
  end.

Definition quote (s : string) : string := String dquote (quote_body s).

Fixpoint spaces (n : nat) : string :=
  match n with
  | O => ""
  | S n' => String " " (spaces n')
  end.

(** The line break and indentation [JSON.stringify] puts before an item when
    a gap is in force; nothing at all for the compact form. *)
Definition break (gap ind : nat) : string :=
  match gap with
  | O => ""
  | S _ => String newline (spaces ind)
  end.

Definition colon (gap : nat) : string :=
  match gap with
  | O => ":"
  | S _ => ": "
  end.

Fixpoint join (sep : string) (l : list string) : string :=
  match l with
  | [] => ""
  | [x] => x
  | x :: rest => x +:+ sep +:+ join sep rest
  end.

(** [SerializeJSONArray] and [SerializeJSONObject] once the items are
    serialised: [ind] is the indentation of the enclosing line. *)
Definition wrap (opening closing : string) (gap ind : nat) (partial : list string)
  : string :=
  match partial with
  | [] => opening +:+ closing
  | _ =>
      opening +:+ break gap (ind + gap)
      +:+ join ("," +:+ break gap (ind + gap)) partial
      +:+ break gap ind +:+ closing
  end.

(** [SerializeJSONProperty]: [None] is the [undefined] that makes the caller
    drop an object member or print [null] for an array element. *)
Fixpoint ser (gap ind : nat) (v : value) : option string :=
  match v with
  | VUndefined => None
  | VNull => Some "null"
  | VBool true => Some "true"
  | VBool false => Some "false"
  | VNum lit => Some lit
  | VStr s => Some (quote s)
  | VArr items =>
      Some (wrap "[" "]" gap ind
        ((fix elems (l : list value) : list string :=
            match l with
            | [] => []
            | e :: l' =>
                match ser gap (ind + gap) e with
                | Some t => t
                | None => "null"
                end :: elems l'
            end) items))
  | VObj props =>
      Some (wrap "{" "}" gap ind
        ((fix members (l : list (string * value)) : list string :=
            match l with
            | [] => []
            | (k, e) :: l' =>
                match ser gap (ind + gap) e with
                | Some t => (quote k +:+ colon gap +:+ t) :: members l'
                | None => members l'
                end
            end) props))
  end.

(** [JSON.stringify(v)] and [JSON.stringify(v, null, n)]. *)
Definition stringify (v : value) : option string := ser 0 0 v.
Definition stringify_indent (n : nat) (v : value) : option string := ser n 0 v.

(** *** [JSON.parse] *)

Definition is_ws (c : ascii) : bool :=
  let n := N_of_ascii c in
  ((n =? 32) || (n =? 9) || (n =? 10) || (n =? 13))%N.

Fixpoint skip_ws (s : string) : string :=
  match s with
  | String c r => if is_ws c then skip_ws r else s
  | EmptyString => s
  end.

Definition is_digit (c : ascii) : bool :=
  let n := N_of_ascii c in ((48 <=? n) && (n <=? 57))%N.

Definition is_num_char (c : ascii) : bool :=
  is_digit c || Ascii.eqb c "-" || Ascii.eqb c "+" || Ascii.eqb c "."
  || Ascii.eqb c "e" || Ascii.eqb c "E".

Fixpoint span (p : ascii -> bool) (s : string) : string * string :=
  match s with
  | String c r =>
      if p c then let '(tok, rest) := span p r in (String c tok, rest)
      else (EmptyString, s)
  | EmptyString => (EmptyString, EmptyString)
  end.

Fixpoint all_chars (p : ascii -> bool) (s : string) : bool :=
  match s with
  | EmptyString => true
  | String c r => p c && all_chars p r
  end.

(** The number literals that are read: an integer of at most fifteen digits,
    without leading zero, fraction or exponent, and not [-0].  These are the
    numbers JavaScript holds exactly and prints back digit for digit; any
    other literal is outside the model and is refused. *)
Definition is_safe_integer (s : string) : bool :=
  let unsigned :=
    match s with
    | String c r => if Ascii.eqb c "-" then r else s
    | EmptyString => s
    end in
  match unsigned with
  | String c r =>
      if Ascii.eqb c "0" then String.eqb s "0"
      else is_digit c && all_chars is_digit r && (String.length r <=? 14)
  | EmptyString => false
  end.

Definition hex_value (c : ascii) : option N :=
  let n := N_of_ascii c in
  if ((48 <=? n) && (n <=? 57))%N then Some (n - 48)%N
  else if ((97 <=? n) && (n <=? 102))%N then Some (n - 87)%N
  else if ((65 <=? n) && (n <=? 70))%N then Some (n - 55)%N
  else None.

Definition unescape (e : ascii) : option ascii :=
  if Ascii.eqb e dquote then Some dquote
  else if Ascii.eqb e bslash then Some bslash
  else if Ascii.eqb e "/" then Some "/"%char
  else if Ascii.eqb e "b" then Some "008"%char
  else if Ascii.eqb e "f" then Some "012"%char
  else if Ascii.eqb e "n" then Some "010"%char
  else if Ascii.eqb e "r" then Some "013"%char
  else if Ascii.eqb e "t" then Some "009"%char
  else None.

(** The characters of a string literal after its opening quote.  Text is a
    sequence of bytes here, so a [\u] escape is read when it denotes a code
    unit below 128 and refused otherwise. *)
Fixpoint parse_string_body (s : string) : option (string * string) :=
  match s with
  | EmptyString => None
  | String c r =>
      if Ascii.eqb c dquote then Some (EmptyString, r)
      else if Ascii.eqb c bslash then
        match r with
        | String e r' =>
            if Ascii.eqb e "u" then
              match r' with
              | String h1 (String h2 (String h3 (String h4 r''))) =>
                  a ← hex_value h1; b ← hex_value h2;
                  c ← hex_value h3; d ← hex_value h4;
                  let code := (((a * 16 + b) * 16 + c) * 16 + d)%N in
                  if (code <? 128)%N then
                    '(t, rest) ← parse_string_body r'';
                    Some (String (ascii_of_N code) t, rest)
                  else None
              | _ => None
              end
            else
              c' ← unescape e;
              '(t, rest) ← parse_string_body r';
              Some (String c' t, rest)
        | EmptyString => None
        end
      else if (N_of_ascii c <? 32)%N then None
      else
        '(t, rest) ← parse_string_body r;
        Some (String c t, rest)
  end.

Definition parse_number (s : string) : option (value * string) :=
  let '(tok, rest) := span is_num_char s in
  if is_safe_integer tok then Some (VNum tok, rest) else None.

Fixpoint strip_prefix (p s : string) : option string :=
  match p with
  | EmptyString => Some s
  | String a p' =>
      match s with
      | String b s' => if Ascii.eqb a b then strip_prefix p' s' else None
      | EmptyString => None
      end
  end.

(** The elements of an array after the first has been seen to exist: [pv]
    parses one value, [n] bounds the number of elements. *)
Fixpoint parse_elements (pv : string -> option (value * string)) (n : nat)
    (acc : list value) (s : string) : option (value * string) :=
  match n with
  | O => None
  | S n' =>
      '(v, r) ← pv s;
      match skip_ws r with
      | String c r' =>
          if Ascii.eqb c "," then parse_elements pv n' (acc ++ [v]) r'
          else if Ascii.eqb c "]" then Some (VArr (acc ++ [v]), r')
          else None
      | EmptyString => None
      end
  end.

(** The members of an object; a repeated name overwrites the earlier value
    in place, as [JSON.parse] does. *)
Fixpoint parse_members (pv : string -> option (value * string)) (n : nat)
    (acc : list (string * value)) (s : string) : option (value * string) :=
  match n with
  | O => None
  | S n' =>
      match skip_ws s with
      | String q r =>
          if Ascii.eqb q dquote then
            '(k, r1) ← parse_string_body r;
            match skip_ws r1 with
            | String c r2 =>
                if Ascii.eqb c ":" then
                  '(v, r3) ← pv r2;
                  match skip_ws r3 with
                  | String d r4 =>
                      if Ascii.eqb d "," then
                        parse_members pv n' (obj_define acc k v) r4
                      else if Ascii.eqb d "}" then
                        Some (VObj (obj_define acc k v), r4)
                      else None
                  | EmptyString => None
                  end
                else None
            | EmptyString => None
            end
          else None
      | EmptyString => None
      end
  end.

Fixpoint parse_value (fuel : nat) (s : string) : option (value * string) :=
  match fuel with
  | O => None
  | S f =>
      match skip_ws s with
      | EmptyString => None
      | String c r =>
          if Ascii.eqb c "{" then
            match skip_ws r with
            | String c' r' =>
                if Ascii.eqb c' "}" then Some (VObj [], r')
                else parse_members (parse_value f) f [] r
            | EmptyString => None
            end
          else if Ascii.eqb c "[" then
            match skip_ws r with
            | String c' r' =>
                if Ascii.eqb c' "]" then Some (VArr [], r')
                else parse_elements (parse_value f) f [] r
            | EmptyString => None
            end
          else if Ascii.eqb c dquote then
            '(t, r') ← parse_string_body r; Some (VStr t, r')
          else if Ascii.eqb c "n" then
            r' ← strip_prefix "ull" r; Some (VNull, r')
          else if Ascii.eqb c "t" then
            r' ← strip_prefix "rue" r; Some (VBool true, r')
          else if Ascii.eqb c "f" then
            r' ← strip_prefix "alse" r; Some (VBool false, r')
          else parse_number (String c r)
      end
  end.

(** [JSON.parse]: one value, then nothing but white space.  Every recursive
    call of the parser consumes a character, so the length of the text is
    fuel enough. *)
Definition parse (s : string) : option value :=
  '(v, rest) ← parse_value (S (String.length s)) s;
  match skip_ws rest with
  | EmptyString => Some v
  | _ => None
  end.

(** *** Values that are JSON documents *)

Definition wf_number (lit : string) : bool :=
  all_chars is_num_char lit && is_safe_integer lit.

(** What [JSON.parse] can return: no [undefined] anywhere, number literals
    of the JSON grammar, and no object with a repeated own property. *)
Fixpoint wf (v : value) : Prop :=
  match v with
  | VUndefined => False
  | VNull | VBool _ | VStr _ => True
  | VNum lit => wf_number lit = true
  | VArr items =>
      (fix all (l : list value) : Prop :=
         match l with
         | [] => True
         | e :: l' => wf e ∧ all l'
         end) items
  | VObj props =>
      NoDup props.*1 ∧
      (fix all (l : list (string * value)) : Prop :=
         match l with
         | [] => True
         | (_, e) :: l' => wf e ∧ all l'
         end) props
  end.

Fixpoint size (v : value) : nat :=
  match v with
  | VArr items =>
      S ((fix sum (l : list value) : nat :=
            match l with
            | [] => 0
            | e :: l' => size e + sum l'
            end) items)
  | VObj props =>
      S ((fix sum (l : list (string * value)) : nat :=
            match l with
            | [] => 0
            | (_, e) :: l' => size e + sum l'
            end) props)
  | _ => 1
  end.

(** The items [ser] hands to [wrap], as list functions. *)
Definition ser_elems (gap ind : nat) (l : list value) : list string :=
  (λ e, default "null" (ser gap ind e)) <$> l.

Definition ser_members (gap ind : nat) (l : list (string * value)) : list string :=
  omap (λ kv, (λ t, quote kv.1 +:+ colon gap +:+ t) <$> ser gap ind kv.2) l.

(** The own properties [JSON.stringify] writes: those whose value is not
    [undefined]. *)
Definition defined (v : value) : bool :=
  match v with
  | VUndefined => false
  | _ => true
  end.

Definition prune (props : list (string * value)) : list (string * value) :=
  filter (λ kv, defined kv.2 = true) props.

(** [String(v)], as a template literal applies it. *)
Fixpoint to_string (v : value) : string :=
  match v with
  | VUndefined => "undefined"
  | VNull => "null"
  | VBool true => "true"
  | VBool false => "false"
  | VNum lit => lit
  | VStr s => s
  | VArr items =>
      join ","
        ((fix each (l : list value) : list string :=
            match l with
            | [] => []
            | e :: l' =>
                match e with
                | VUndefined | VNull => ""
                | _ => to_string e
                end :: each l'
            end) items)
  | VObj _ => "[object Object]"
  end.

(** *** What the parser needs from the text that follows a value *)

Definition ok_rest (s : string) : Prop :=
  match s with
  | EmptyString => True
  | String c _ => is_num_char c = false
  end.

Definition starts_value (t : string) : Prop :=
  match t with
  | EmptyString => False
  | String c _ => is_ws c = false ∧ Ascii.eqb c "]" = false
  end.

(** [pv] reads back the serialisation of [e], whatever follows it. *)
Definition parses (pv : string -> option (value * string)) (gap ind : nat)
    (e : value) : Prop :=
  ∀ rest, ok_rest rest →
    ∃ t, ser gap ind e = Some t ∧ starts_value t ∧ pv (t +:+ rest) = Some (e, rest).

End Json.

(** ** The host: environment, file system, external commands *)

Module Host.

(** Calls that leave the process, in the order they are made.  A call is
    recorded whether or not the host then refuses it. *)
Inductive event : Type :=
| ConsoleLog (msg : string)
| ConsoleError (msg : string)
| SpawnSync (command : string) (args : list string)
| ExecSync (command : string)
| WriteFile (path data : string)
| EnsureDir (path : string)
| RemovePath (path : string).

(** The world a run starts in and leaves behind.  Files and directories are
    kept under their absolute paths, POSIX style.  [refuses] is the host's
    side of every call that can fail: the message of the error it throws, if
    it throws one. *)
Record world : Type := World {
  process_env : gmap string string;
  process_cwd : string;
  files : gmap string string;
  dirs : gset string;
  refuses : event -> option string;
  trace : list event;
}.

Inductive result (A : Type) : Type :=
| Ok (a : A)
| Throw (message : string)
| Exit (code : Z).
Arguments Ok {A} a.
Arguments Throw {A} message.
Arguments Exit {A} code.

(** A computation of the program: it returns, throws, or ends the process. *)
Definition M (A : Type) : Type := world -> result A * world.

#[global] Instance M_ret : MRet M := λ A a w, (Ok a, w).
#[global] Instance M_bind : MBind M := λ A B f m w,
  match m w with
  | (Ok a, w') => f a w'
  | (Throw e, w') => (Throw e, w')
  | (Exit c, w') => (Exit c, w')
  end.

Definition throw {A} (message : string) : M A := λ w, (Throw message, w).

(** [try { m } catch (err) { handler (err.message) }]: the end of the process
    is not an exception and passes through. *)
Definition try_catch {A} (m : M A) (handler : string -> M A) : M A := λ w,
  match m w with
  | (Throw e, w') => handler e w'
  | r => r
  end.

Definition record (e : event) (w : world) : world :=
  World (process_env w) (process_cwd w) (files w) (dirs w) (refuses w)
        (trace w ++ [e]).

Definition with_files (f : gmap string string) (w : world) : world :=
  World (process_env w) (process_cwd w) f (dirs w) (refuses w) (trace w).

Definition with_dirs (d : gset string) (w : world) : world :=
  World (process_env w) (process_cwd w) (files w) d (refuses w) (trace w).

(** A call that cannot fail. *)
Definition emit (e : event) : M unit := λ w, (Ok (), record e w).

(** A call the host may refuse; its effect happens only if it does not. *)
Definition perform (e : event) (effect : world -> world) : M unit := λ w,
  match refuses w e with
  | Some message => (Throw message, record e w)
  | None => (Ok (), effect (record e w))
  end.

Definition console_log (msg : string) : M unit := emit (ConsoleLog msg).
Definition console_error (msg : string) : M unit := emit (ConsoleError msg).
Definition process_exit {A} (code : Z) : M A := λ w, (Exit code, w).
Definition cwd : M string := λ w, (Ok (process_cwd w), w).

(** [process.env[name]]: the value of a variable that is set, [undefined]
    otherwise.  (For an unset name that [Object.prototype] defines the lookup
    yields the inherited member, a function or an object; [JSON.stringify]
    drops that exactly as it drops [undefined].) *)
Definition env_value (w : world) (name : string) : Json.value :=
  match process_env w !! name with
  | Some s => Json.VStr s
  | None => Json.VUndefined
  end.

Definition getenv (name : string) : M Json.value := λ w, (Ok (env_value w name), w).

(** [path.join(a, b)] for a relative [b] without [.] or [..] segments. *)
Definition path_join (a b : string) : string := a +:+ "/" +:+ b.

Fixpoint starts_with (p s : string) : bool :=
  match p with
  | EmptyString => true
  | String a p' =>
      match s with
      | String b s' => Ascii.eqb a b && starts_with p' s'
      | EmptyString => false
      end
  end.

(** The file a path names: itself when absolute, below the working directory
    otherwise. *)
Definition absolute (p : string) : bool := starts_with "/" p.

Definition resolve (w : world) (p : string) : string :=
  if absolute p then p else path_join (process_cwd w) p.

(** [q] is [p] or lies below it. *)
Definition under (p q : string) : bool :=
  String.eqb p q || starts_with (p +:+ "/") q.

Definition remove_tree (p : string) (w : world) : world :=
  with_dirs (filter (λ q, under (resolve w p) q = false) (dirs w))
    (with_files (filter (λ kv, under (resolve w p) kv.1 = false) (files w)) w).

(** [fs.writeFileSync(path, data)] *)
Definition writeFileSync (path data : string) : M unit :=
  perform (WriteFile path data)
    (λ w, with_files (<[resolve w path := data]> (files w)) w).

(** [fs.ensureDirSync(path)] *)
Definition ensureDirSync (path : string) : M unit :=
  perform (EnsureDir path) (λ w, with_dirs ({[resolve w path]} ∪ dirs w) w).

(** [fs.removeSync(path)]: the library checks that it is given a string
    before it touches anything. *)
Definition removeSync (path : Json.value) : M unit :=
  match path with
  | Json.VStr p => perform (RemovePath p) (remove_tree p)
  | _ => throw "rimraf: path should be a string"
  end.

(** [child.spawnSync(command, args, {stdio: 'inherit'})]: a failure to start
    or a non-zero status is in the returned object, which the program drops. *)
Definition spawnSync (command : string) (args : list string) : M unit :=
  emit (SpawnSync command args).

(** [child.execSync(command, {stdio: 'ignore'})] throws when the command
    ends with a non-zero status. *)
Definition execSync (command : string) : M unit :=
  perform (ExecSync command) (λ w, w).

(** [require(path)] of a [.json] file. *)
Definition require (path : string) : M Json.value := λ w,
  match files w !! resolve w path with
  | None => (Throw ("Cannot find module '" +:+ path +:+ "'"), w)
  | Some text =>
      match Json.parse text with
      | Some v => (Ok v, w)
      | None => (Throw (path +:+ ": Unexpected token in JSON"), w)
      end
  end.

(** [v[k]] for reading. *)
Definition get_prop (v : Json.value) (k : string) : M Json.value :=
  match v with
  | Json.VUndefined | Json.VNull =>
      throw ("Cannot read property '" +:+ k +:+ "' of " +:+ Json.to_string v)
  | Json.VObj props => mret (default Json.VUndefined (Json.obj_get props k))
  | _ => mret Json.VUndefined
  end.

(** [v[k] = x] in strict mode.  A property other than an index set on an
    array is never seen by [JSON.stringify], so the array is left as it is. *)
Definition set_prop (v : Json.value) (k : string) (x : Json.value) : M Json.value :=
  match v with
  | Json.VObj props => mret (Json.VObj (Json.obj_assign props k x))
  | Json.VArr items => mret (Json.VArr items)
  | Json.VUndefined | Json.VNull =>
      throw ("Cannot set property '" +:+ k +:+ "' of " +:+ Json.to_string v)
  | _ => throw ("Cannot create property '" +:+ k +:+ "' on " +:+ Json.to_string v)
  end.

(** [items.forEach(f)] *)
Fixpoint forEach {A} (items : list A) (f : A -> M unit) : M unit :=
  match items with
  | [] => mret ()
  | x :: rest => _ ← f x; forEach rest f
  end.

(** [items.reduce(f, init)] *)
Fixpoint reduce {A B} (items : list A) (f : B -> A -> M B) (init : B) : M B :=
  match items with
  | [] => mret init
  | x :: rest => acc ← f init x; reduce rest f acc
  end.

(** [m] adds to the trace only calls that satisfy [P]. *)
Definition emits {A} (P : event -> Prop) (m : M A) : Prop :=
  ∀ w, ∃ t, trace (m w).2 = trace w ++ t ∧ Forall P t.

Definition is_spawn (e : event) : Prop :=
  match e with SpawnSync _ _ => True | _ => False end.

(** The calls of a trace that remove something, and those that start a
    program. *)
Definition removals (t : list event) : list string :=
  omap (λ e, match e with RemovePath p => Some p | _ => None end) t.

Definition spawns (t : list event) : list (string * list string) :=
  omap (λ e, match e with SpawnSync c a => Some (c, a) | _ => None end) t.

Definition execs (t : list event) : list string :=
  omap (λ e, match e with ExecSync c => Some c | _ => None end) t.

Definition writes (t : list event) : list (string * string) :=
  omap (λ e, match e with WriteFile p d => Some (p, d) | _ => None end) t.

Definition logs (t : list event) : list string :=
  omap (λ e, match e with ConsoleLog m => Some m | _ => None end) t.

Definition errors (t : list event) : list string :=
  omap (λ e, match e with ConsoleError m => Some m | _ => None end) t.

(** How [m] can end: never by ending the process with a status other than 1,
    and, unless [throws], never by letting an exception escape. *)
Definition outcome {A} (throws : bool) (m : M A) : Prop :=
  ∀ w, match (m w).1 with
       | Ok _ => True
       | Throw _ => throws = true
       | Exit code => code = 1%Z
       end.

Definition is_removal (e : event) : Prop :=
  match e with RemovePath _ => True | _ => False end.

Definition is_program (e : event) : Prop :=
  match e with SpawnSync _ _ | ExecSync _ => True | _ => False end.

End Host.

(** ** The command-line interface *)

Module Cli.
Import Json Host.

Inductive style : Type := bold | red | blue | cyan | yellow | white.

(** [minimist(args, ...)]: booleans default to [false]; a string option that
    was not given is [undefined]. *)
Record options : Type := Options {
  positional : list string;      (* [options._] *)
  opt_help : bool;
  opt_fast : bool;
  opt_dev : bool;
  opt_device : bool;
  opt_emulate : bool;
  opt_debug : bool;
  opt_release : bool;
  opt_yarn : bool;
  opt_cordova : bool;
  opt_dist : bool;
  opt_o : option string;
  opt_copy : option string;
  opt_env : option string;       (* alias [e] *)
  opt_path : option string;
}.

(** The instance the constructor builds: the raw arguments and their parse. *)
Record NgxScriptsCli : Type := Instance_ {
  _args : list string;
  _options : options;
}.

(** What is used of how [minimist] fills [_]: every argument that is not an
    option is a positional one, in order, so an argument list that starts
    with a word has that word, the command name, as first positional.  This
    is why [run] hands [_.slice(1)] to [_env2json] and [_cordova] hands
    [_.slice(1)] to [cordova]. *)
Definition command_is_first_positional (this : NgxScriptsCli) : Prop :=
  ∀ cmd, _args this !! 0 = Some cmd → starts_with "-" cmd = false →
         positional (_options this) !! 0 = Some cmd.

(** Truthiness of a string option: given, and not the empty string. *)
Definition truthy (s : option string) : bool :=
  match s with
  | Some s => negb (String.eqb s "")
  | None => false
  end.

Definition get (s : option string) : string := default "undefined" s.

(** [a || m]: [m] runs only if [a] is false. *)
Definition or_else (a : bool) (m : M bool) : M bool :=
  if a then mret a else m.

Section handlers.

(** What the module binds when it is loaded: the platform test, the name the
    program was started under, the colouring library, and the banner. *)
Context (isWin : bool) (appName : string).
Context (chalk : style -> string -> string).
Context (asciiLogo : string).

Definition nl : string := String Json.newline "".

Definition help : string :=
  chalk bold "Usage" +:+ " " +:+ appName +:+ " " +:+ chalk blue "[command]"
  +:+ " [options]" +:+ nl.

Definition detailedHelp : string :=
  nl +:+ chalk blue "env2json" +:+ " <env_var> [<env_var2> ...] [-o <file.json>]
  Export environment variables to a JSON file.
  Default output file is " +:+ chalk cyan "src/environments/.env.json" +:+ "

" +:+ chalk blue "cordova" +:+ " <command> [options] [-- <cordova_options>]
  Execute Cordova commands.
  Unless the " +:+ chalk cyan "--fast" +:+ " option is provided, the Angular app is
  rebuilt before executing the command, using " +:+ chalk cyan "npm run build" +:+ ".
  Any accepted Cordova option can be passed through after " +:+ chalk cyan "--" +:+ ".

  --fast            Skip Angular app rebuild
  --copy <path>     Copy built apps to path (only work with "
  +:+ chalk cyan "cordova build" +:+ ")
  --dev             Build Angular app in dev mode (default is prod)
  -e, --env <name>  Target environment for " +:+ chalk cyan "npm run build" +:+ "
  --device          Deploy Cordova build to a device
  --emulate         Deploy Cordova build to an emulator
  --debug           Create a Cordova debug build
  --release         Create a Cordova release build
  --yarn            Use Yarn instead of NPM to run the " +:+ chalk cyan "build"
  +:+ " script

" +:+ chalk blue "clean" +:+ " [--cordova] [--dist] [--path <path>]
  Clean Cordova (" +:+ chalk cyan "platforms" +:+ ", " +:+ chalk cyan "plugins"
  +:+ ") and dist folders.

  --cordova         Remove only Cordova folders
  --dist            Remove only dist folder
  --path <path>     Remove only specified path

" +:+ chalk blue "unpin-ionic-dependencies" +:+ "
  Unpin Ionic dependencies.
  This removes " +:+ chalk cyan "peerDependencies" +:+ " from ionic-angular's "
  +:+ chalk cyan "package.json" +:+ ".
  The Ionic team insist on fixing their dependencies to exact versions which
  prevents getting bugfixes and new features outside of their release schedule
  (see https://github.com/ionic-team/ionic/issues/11741 for example).
  Running this allows you using higher dependencies versions that specified in
  Ionic without warnings all the way.
".

Definition _exit {A} (error : string) : M A :=
  _ ← console_error error; process_exit 1%Z.

Definition _help (details : bool) : M unit :=
  _ ← console_log asciiLogo;
  _exit (help +:+ (if details then detailedHelp
                   else "Use " +:+ chalk white "--help" +:+ " for more info." +:+ nl)).

Definition _env2json (vars : list string) (outputFile : option string) : M unit :=
  let outputFile := default "src/environments/.env.json" outputFile in
  _ ← (if bool_decide (length vars = 0)
       then _exit (chalk red "Missing arguments" +:+ nl)
       else mret ());
  env ← reduce vars (λ env v, x ← getenv v; mret (obj_assign env v x)) [];
  let env := default "undefined" (stringify (VObj env)) in
  try_catch (writeFileSync outputFile env)
    (λ err, _exit (chalk red ("Error writing file: " +:+ err))).

(** The command line [_copy] hands to the shell. *)
Definition copy_command (src dest : string) : string :=
  (if isWin then "xcopy /S /Y" else "cp -Rf") +:+ " " +:+ src +:+ " " +:+ dest.

Definition _copy (src dest : string) : M bool :=
  try_catch (_ ← execSync (copy_command src dest); mret true) (λ _, mret false).

(** The two argument lists [_cordova] builds. *)
Definition buildOptions (options : options) : list string :=
  ["build"; "--"]
  ++ (if opt_dev options then ["--dev"] else [])
  ++ (if truthy (opt_env options) then ["--env"; get (opt_env options)] else []).

Definition cordovaOptions (options : options) : list string :=
  drop 1 (positional options) ++ ["--no-telemetry"]
  ++ (if opt_device options then ["--device"] else [])
  ++ (if opt_emulate options then ["--emulate"] else [])
  ++ (if opt_debug options then ["--debug"] else [])
  ++ (if opt_release options then ["--release"] else []).

Definition androidPath (options : options) : string :=
  "platforms/android/build/outputs/apk/*-"
  +:+ (if opt_release options then "release" else "debug") +:+ ".apk".

Definition iosPath : string := "platforms/ios/build/device/*.ipa".

Definition _cordova (options : options) : M unit :=
  _ ← (if negb (opt_fast options)
       then spawnSync (if opt_yarn options then "yarn" else "npm run")
                      (buildOptions options)
       else mret ());
  _ ← spawnSync "cordova" (cordovaOptions options);
  if bool_decide (positional options !! 0 = Some "build") && truthy (opt_copy options)
  then
    let dest := get (opt_copy options) in
    try_catch
      (_ ← ensureDirSync dest;
       let copied := false in
       copied ← or_else copied (_copy (androidPath options) dest);
       copied ← or_else copied (_copy iosPath dest);
       if copied : bool
       then console_log ("Apps copied to " +:+ chalk cyan dest +:+ " folder")
       else throw "No app builds found")
      (λ err, _exit (chalk red ("Error during apps copy: " +:+ err)))
  else mret ().

(** The [try] block of [_cordova] on its own, for the statements about it. *)
Definition copy_step (options : options) : M unit :=
  let dest := get (opt_copy options) in
  try_catch
    (_ ← ensureDirSync dest;
     let copied := false in
     copied ← or_else copied (_copy (androidPath options) dest);
     copied ← or_else copied (_copy iosPath dest);
     if copied : bool
     then console_log ("Apps copied to " +:+ chalk cyan dest +:+ " folder")
     else throw "No app builds found")
    (λ err, _exit (chalk red ("Error during apps copy: " +:+ err))).

Definition _remove (path : value) : M unit :=
  try_catch
    (_ ← removeSync path;
     console_log ("Removed " +:+ chalk yellow (to_string path)))
    (λ err, _exit (chalk red
       ("Error while removing " +:+ to_string path +:+ ": " +:+ err))).

Definition _clean (options : options) : M unit :=
  let none := negb (opt_cordova options) && negb (opt_dist options)
              && negb (truthy (opt_path options)) in
  let cordova := if none then true else opt_cordova options in
  let dist := if none then true else opt_dist options in
  _ ← (if cordova
       then _ ← _remove (VStr "platforms"); _remove (VStr "plugins")
       else mret ());
  _ ← (if dist then
         angularCliConfig ←
           try_catch
             (dir ← cwd; require (path_join dir ".angular-cli.json"))
             (λ err, _exit (chalk red
                ("Error reading .angular-cli.json: " +:+ err)));
         apps ← get_prop angularCliConfig "apps";
         match apps with
         | VArr apps =>
             forEach apps (λ app, outDir ← get_prop app "outDir"; _remove outDir)
         | VUndefined | VNull =>
             throw ("Cannot read property 'forEach' of " +:+ to_string apps)
         | _ => throw "angularCliConfig.apps.forEach is not a function"
         end
       else mret ());
  if truthy (opt_path options)
  then removeSync (VStr (get (opt_path options)))
  else mret ().

Definition _unpinIonicDependencies : M unit :=
  try_catch
    (dir ← cwd;
     let pkgPath := path_join dir "node_modules/ionic-angular/package.json" in
     pkg ← require pkgPath;
     pkg ← set_prop pkg "peerDependencies" (VObj []);
     try_catch
       (writeFileSync pkgPath (default "undefined" (stringify_indent 2 pkg)))
       (λ err, _exit (chalk red ("Error writing file: " +:+ err))))
    (λ err, _exit (chalk red ("Error with ionic package: " +:+ err))).

Definition run (this : NgxScriptsCli) : M unit :=
  if opt_help (_options this) then _help true
  else
    match _args this !! 0 with
    | Some cmd =>
        if String.eqb cmd "env2json" then
          _env2json (drop 1 (positional (_options this))) (opt_o (_options this))
        else if String.eqb cmd "cordova" then _cordova (_options this)
        else if String.eqb cmd "clean" then _clean (_options this)
        else if String.eqb cmd "unpin-ionic-dependencies" then _unpinIonicDependencies
        else _help false
    | None => _help false
    end.

End handlers.

(** The object the [reduce] of [_env2json] builds, as a pure function of the
    environment. *)
Definition snapshot (w : world) (vars : list string) (init : list (string * value))
  : list (string * value) :=
  fold_left (λ env v, obj_assign env v (env_value w v)) vars init.

(** The path [_env2json] writes to. *)
Definition output_path (outputFile : option string) : string :=
  default "src/environments/.env.json" outputFile.


(** The world after [_remove] has removed [p] and logged it. *)
Definition removed (chalk : style -> string -> string) (w : world) (p : string)
  : world :=
  record (ConsoleLog ("Removed " +:+ chalk yellow p))
    (remove_tree p (record (RemovePath p) w)).

(** The distribution directories of a build configuration: the [outDir]
    fields of its [apps], when every one of them is there and is a string. *)
Definition outDirs (config : value) : option (list string) :=
  match config with
  | VObj props =>
      match obj_get props "apps" with
      | Some (VArr apps) =>
          mapM (λ app,
                  match app with
                  | VObj fields =>
                      match obj_get fields "outDir" with
                      | Some (VStr dir) => Some dir
                      | _ => None
                      end
                  | _ => None
                  end) apps
      | _ => None
      end
  | _ => None
  end.

(** The manifest [_unpinIonicDependencies] rewrites. *)
Definition pkgPath (w : world) : string :=
  path_join (process_cwd w) "node_modules/ionic-angular/package.json".

(** Two files for the examples: a build configuration with one application
    and a manifest with one peer dependency. *)
Definition config_text : string :=
  default "null" (stringify (VObj [("apps", VArr [VObj [("outDir", VStr "dist")]])])).

Definition manifest_text : string :=
  default "null"
    (stringify (VObj [("name", VStr "ionic-angular");
                      ("peerDependencies", VObj [("rxjs", VStr "5.5.2")]);
                      ("version", VStr "3.9.2")])).

(** Colours switched off: [chalk] hands its text back. *)
Definition plain : style -> string -> string := λ _ s, s.

(** What [minimist] returns when no option is given. *)
Definition no_options (positional : list string) : options :=
  Options positional false false false false false false false false false false
          None None None None.

(** A host that refuses nothing. *)
Definition world0 (env files : gmap string string) : world :=
  World env "/app" files ∅ (λ _, None) [].

(** The build configuration [_clean] reads, and what [require] makes of it:
    [None] when the file is missing or is not JSON. *)
Definition config_path (w : world) : string :=
  path_join (process_cwd w) ".angular-cli.json".

Definition read_config (w : world) : option value :=
  files w !! config_path w ≫= parse.

(** The scopes [_clean] works on once the default is applied. *)
Definition no_scope (options : options) : bool :=
  negb (opt_cordova options) && negb (opt_dist options)
  && negb (truthy (opt_path options)).

Definition scope_cordova (options : options) : bool :=
  no_scope options || opt_cordova options.

Definition scope_dist (options : options) : bool :=
  no_scope options || opt_dist options.

(** The block of [_clean] under [options.dist] on its own, and [_clean] as
    its three blocks in a row, for the statements about them. *)
Definition dist_step (chalk : style -> string -> string) : M unit :=
  angularCliConfig ←
    try_catch
      (dir ← cwd; require (path_join dir ".angular-cli.json"))
      (λ err, _exit (chalk red ("Error reading .angular-cli.json: " +:+ err)));
  apps ← get_prop angularCliConfig "apps";
  match apps with
  | VArr apps =>
      forEach apps (λ app, outDir ← get_prop app "outDir"; _remove chalk outDir)
  | VUndefined | VNull =>
      throw ("Cannot read property 'forEach' of " +:+ to_string apps)
  | _ => throw "angularCliConfig.apps.forEach is not a function"
  end.

Definition clean_steps (chalk : style -> string -> string) (options : options)
  : M unit :=
  _ ← (if scope_cordova options
       then _ ← _remove chalk (VStr "platforms"); _remove chalk (VStr "plugins")
       else mret ());
  _ ← (if scope_dist options then dist_step chalk else mret ());
  if truthy (opt_path options)
  then removeSync (VStr (get (opt_path options)))
  else mret ().

(** What [_clean] removes through [_remove] when nothing fails. *)
Definition clean_targets (options : options) (dirs : list string) : list string :=
  (if scope_cordova options then ["platforms"; "plugins"] else []) ++ dirs.

(** The commands [run] knows. *)
Definition commands : list string :=
  ["env2json"; "cordova"; "clean"; "unpin-ionic-dependencies"].

(** A host that refuses every call it can refuse. *)
Definition world_denied (env files : gmap string string) : world :=
  World env "/app" files ∅ (λ _, Some "EACCES: permission denied") [].

End Cli.

(** ** Facts about JSON text *)

Import Json Host Cli.

#[local] Arguments join : simpl never.
#[local] Arguments break : simpl never.
#[local] Arguments ser_elems : simpl never.
#[local] Arguments ser_members : simpl never.

Lemma app_cons c s t : String c s +:+ t = String c (s +:+ t).
Proof. reflexivity. Qed.

Lemma app_empty t : "" +:+ t = t.
Proof. reflexivity. Qed.

Lemma app_assoc' (a b c : string) : (a +:+ b) +:+ c = a +:+ b +:+ c.
Proof. induction a as [|x a IH]; [done|]. rewrite !app_cons. by rewrite IH. Qed.

Lemma app_length' (a b : string) :
  String.length (a +:+ b) = String.length a + String.length b.
Proof. induction a as [|x a IH]; [done|]. rewrite app_cons. simpl. by rewrite IH. Qed.

Lemma parse_quote_char c t :
  parse_string_body (quote_char c +:+ t)
  = '(u, rest) ← parse_string_body t; Some (String c u, rest).
Proof.
  destruct c as [[] [] [] [] [] [] [] []]; reflexivity.
Qed.

Lemma parse_quote_body s rest :
  parse_string_body (quote_body s +:+ rest) = Some (s, rest).
Proof.
  induction s as [|c s IH]; [done|].
  simpl quote_body. rewrite app_assoc', parse_quote_char, IH. done.
Qed.

Lemma ser_VArr gap ind items :
  ser gap ind (VArr items) = Some (wrap "[" "]" gap ind (ser_elems gap (ind + gap) items)).
Proof.
  reflexivity.
Qed.

Lemma ser_VObj gap ind props :
  ser gap ind (VObj props) = Some (wrap "{" "}" gap ind (ser_members gap (ind + gap) props)).
Proof.
  simpl. do 2 f_equal. induction props as [|[k e] l IH]; [done|].
  rewrite IH. unfold ser_members. simpl.
  by destruct (ser gap (ind + gap) e).
Qed.

Lemma wf_VArr items : wf (VArr items) ↔ Forall wf items.
Proof.
  simpl. induction items as [|e l IH]; [by split; auto|].
  rewrite Forall_cons. by rewrite IH.
Qed.

Lemma wf_VObj props : wf (VObj props) ↔ NoDup props.*1 ∧ Forall (λ kv, wf kv.2) props.
Proof.
  simpl. apply and_iff_compat_l.
  induction props as [|[k e] l IH]; [by split; auto|].
  rewrite Forall_cons. by rewrite IH.
Qed.

Lemma size_VArr items : size (VArr items) = S (sum_list (size <$> items)).
Proof. simpl. f_equal. induction items as [|e l IH]; [done|]. by rewrite IH. Qed.

Lemma size_VObj props : size (VObj props) = S (sum_list ((λ kv, size kv.2) <$> props)).
Proof. simpl. f_equal. induction props as [|[k e] l IH]; [done|]. by rewrite IH. Qed.

Lemma size_pos v : 0 < size v.
Proof. destruct v; simpl; lia. Qed.

Lemma skip_ws_spaces n s : skip_ws (spaces n +:+ s) = skip_ws s.
Proof. induction n as [|n IH]; [done|]. simpl spaces. by rewrite app_cons. Qed.

Lemma skip_ws_break gap ind s : skip_ws (break gap ind +:+ s) = skip_ws s.
Proof.
  destruct gap; [done|]. unfold break. rewrite app_cons.
  change (skip_ws (String newline ?x)) with (skip_ws x). apply skip_ws_spaces.
Qed.

Lemma skip_ws_idemp s : skip_ws (skip_ws s) = skip_ws s.
Proof.
  induction s as [|c s IH]; [done|]. simpl.
  destruct (is_ws c) eqn:E; [done|]. simpl. by rewrite E.
Qed.

Lemma skip_ws_starts t s : starts_value t → skip_ws (t +:+ s) = t +:+ s.
Proof. destruct t as [|c t]; [done|]. intros [E _]. rewrite app_cons. simpl. by rewrite E. Qed.

Lemma parse_value_skip_ws fuel s : parse_value fuel s = parse_value fuel (skip_ws s).
Proof. destruct fuel; [done|]. simpl. by rewrite skip_ws_idemp. Qed.

Lemma ok_rest_break gap ind c s :
  is_num_char c = false → ok_rest (break gap ind +:+ String c s).
Proof. destruct gap; done. Qed.

Lemma span_all p lit rest :
  all_chars p lit = true →
  match rest with String c _ => p c = false | EmptyString => True end →
  span p (lit +:+ rest) = (lit, rest).
Proof.
  intros Hall Hrest. induction lit as [|c lit IH].
  - change ("" +:+ rest) with rest. destruct rest as [|c r]; [done|]. simpl. by rewrite Hrest.
  - simpl in Hall. apply andb_true_iff in Hall as [Hc Hall].
    rewrite app_cons. simpl. rewrite Hc, IH; done.
Qed.

Lemma num_char_head c r f :
  is_num_char c = true →
  is_ws c = false ∧ Ascii.eqb c "]" = false ∧
  parse_value (S f) (String c r) = parse_number (String c r).
Proof.
  destruct c as [[] [] [] [] [] [] [] []]; try discriminate; intros _; done.
Qed.

Lemma wf_number_head lit :
  wf_number lit = true → ∃ c r, lit = String c r ∧ is_num_char c = true.
Proof.
  unfold wf_number. intros [Hall Hnum]%andb_true_iff.
  destruct lit as [|c r]; [done|]. simpl in Hall.
  apply andb_true_iff in Hall as [Hc _]. eauto.
Qed.

Lemma parse_number_lit f lit rest :
  wf_number lit = true → ok_rest rest →
  starts_value lit ∧ parse_value (S f) (lit +:+ rest) = Some (VNum lit, rest).
Proof.
  intros Hwf Hrest. destruct (wf_number_head _ Hwf) as (c & r & -> & Hc).
  destruct (num_char_head c (r +:+ rest) f Hc) as (Hws & Hbr & Hpv).
  split; [done|]. rewrite app_cons, Hpv. unfold parse_number.
  apply andb_true_iff in Hwf as [Hall Hnum].
  rewrite <- app_cons, span_all; [by rewrite Hnum|done|].
  destruct rest; done.
Qed.

Lemma join_cons sep x l : l ≠ [] → join sep (x :: l) = x +:+ sep +:+ join sep l.
Proof. by destruct l. Qed.

Lemma ser_elems_cons gap ind e l :
  ser_elems gap ind (e :: l) = default "null" (ser gap ind e) :: ser_elems gap ind l.
Proof. done. Qed.

Lemma ser_members_cons gap ind k e t l :
  ser gap ind e = Some t →
  ser_members gap ind ((k, e) :: l)
  = (quote k +:+ colon gap +:+ t) :: ser_members gap ind l.
Proof. intros H. unfold ser_members. simpl. by rewrite H. Qed.

Lemma colon_step gap s :
  ∃ r, colon gap +:+ s = String ":" r ∧ skip_ws r = skip_ws s.
Proof. destruct gap; eexists; split; reflexivity. Qed.

Lemma obj_define_fresh acc k v :
  k ∉ acc.*1 → obj_define acc k v = acc ++ [(k, v)].
Proof.
  induction acc as [|[k' v'] acc IH]; [done|]. simpl.
  intros [Hne Hnin]%not_elem_of_cons.
  destruct (String.eqb_spec k' k); [congruence|]. by rewrite IH.
Qed.

Section loops.
Context (pv : string → option (value * string)) (gap ind' ind : nat).
Hypothesis pv_ws : ∀ s, pv s = pv (skip_ws s).

Lemma pv_break i s : pv (break gap i +:+ s) = pv s.
Proof. by rewrite pv_ws, skip_ws_break, <- pv_ws. Qed.

Lemma parse_elements_ser l : ∀ e acc n rest,
  Forall (parses pv gap ind') (e :: l) → length l < n →
  parse_elements pv n acc
    (break gap ind' +:+ join ("," +:+ break gap ind') (ser_elems gap ind' (e :: l))
     +:+ break gap ind +:+ "]" +:+ rest)
  = Some (VArr (acc ++ e :: l), rest).
Proof.
  induction l as [|e2 l IH]; intros e acc n rest Hall Hn;
    (destruct n as [|n]; [simpl in Hn; lia|]);
    apply Forall_cons in Hall as [He Hall].
  - destruct (He (break gap ind +:+ "]" +:+ rest)) as (t & Hser & Hst & Hpv).
    { by apply ok_rest_break. }
    rewrite ser_elems_cons, Hser. simpl.
    change (join ?s (?x :: ser_elems _ _ [])) with x.
    rewrite pv_break, Hpv. simpl. by rewrite skip_ws_break.
  - destruct (He ("," +:+ break gap ind' +:+ join ("," +:+ break gap ind')
        (ser_elems gap ind' (e2 :: l)) +:+ break gap ind +:+ "]" +:+ rest))
      as (t & Hser & Hst & Hpv); [done|].
    rewrite (ser_elems_cons _ _ e), Hser, join_cons by done.
    rewrite !app_assoc'. simpl.
    rewrite pv_break, Hpv. simpl.
    rewrite app_empty, IH; [|done|simpl in *; lia]. by rewrite <- app_assoc.
Qed.

Lemma parse_members_ser l : ∀ k e acc n rest,
  Forall (λ kv, parses pv gap ind' kv.2) ((k, e) :: l) →
  NoDup (acc.*1 ++ k :: l.*1) → length l < n →
  parse_members pv n acc
    (break gap ind' +:+ join ("," +:+ break gap ind') (ser_members gap ind' ((k, e) :: l))
     +:+ break gap ind +:+ "}" +:+ rest)
  = Some (VObj (acc ++ (k, e) :: l), rest).
Proof.
  induction l as [|[k2 e2] l IH]; intros k e acc n rest Hall Hnd Hn;
    (destruct n as [|n]; [simpl in Hn; lia|]);
    apply Forall_cons in Hall as [He Hall]; simpl in He;
    assert (k ∉ acc.*1) as Hfresh
      by (apply NoDup_app in Hnd as (_ & Hd & _); intros ?; eapply Hd; [done|left]).
  - destruct (He (break gap ind +:+ "}" +:+ rest)) as (t & Hser & Hst & Hpv).
    { by apply ok_rest_break. }
    rewrite (ser_members_cons _ _ _ _ t) by done.
    change (join ?s (?x :: ser_members _ _ [])) with x.
    rewrite !app_assoc'. simpl. rewrite skip_ws_break.
    unfold quote. rewrite app_cons. simpl. rewrite parse_quote_body. simpl.
    destruct (colon_step gap (t +:+ break gap ind +:+ "}" +:+ rest)) as (r & -> & Hr).
    simpl. rewrite pv_ws, Hr, <- pv_ws, Hpv. simpl. rewrite skip_ws_break. simpl.
    by rewrite obj_define_fresh.
  - destruct (He ("," +:+ break gap ind' +:+ join ("," +:+ break gap ind')
        (ser_members gap ind' ((k2, e2) :: l)) +:+ break gap ind +:+ "}" +:+ rest))
      as (t & Hser & Hst & Hpv); [done|].
    destruct (Forall_cons_1 _ _ _ Hall) as [He2 _]. simpl in He2.
    destruct (He2 "") as (t2 & Hser2 & _); [done|].
    rewrite (ser_members_cons _ _ _ _ t) by done.
    rewrite join_cons by (by rewrite (ser_members_cons _ _ _ _ t2)).
    rewrite !app_assoc'. simpl. rewrite skip_ws_break.
    unfold quote at 1. rewrite app_cons. simpl. rewrite parse_quote_body. simpl.
    match goal with |- context [colon gap +:+ ?x] =>
      destruct (colon_step gap x) as (r & -> & Hr) end.
    simpl. rewrite pv_ws, Hr, <- pv_ws, Hpv. simpl.
    rewrite app_empty, obj_define_fresh by done.
    rewrite IH; [by rewrite <- app_assoc|done| |simpl in *; lia].
    rewrite fmap_app, <- app_assoc. done.
Qed.

End loops.

Lemma join_head sep x l : ∃ tail, join sep (x :: l) = x +:+ tail.
Proof.
  destruct l as [|y l]; [exists ""|eexists; reflexivity].
  change (join sep [x]) with x. induction x as [|c x IH]; [done|].
  by rewrite app_cons, <- IH.
Qed.

Lemma sum_list_size_ge (l : list value) : length l ≤ sum_list (size <$> l).
Proof.
  induction l as [|e l IH]; [done|]. rewrite fmap_cons. simpl.
  pose proof (size_pos e). lia.
Qed.

Lemma sum_list_elem (l : list nat) x : x ∈ l → x ≤ sum_list l.
Proof.
  induction 1; simpl; lia.
Qed.

Lemma starts_value_wrap (o c : ascii) gap ind l :
  is_ws o = false → Ascii.eqb o "]" = false →
  starts_value (wrap (String o "") (String c "") gap ind l).
Proof. intros. destruct l; split; done. Qed.

Lemma parse_value_array f body t more :
  starts_value t → skip_ws body = t +:+ more →
  parse_value (S f) (String "[" body) = parse_elements (parse_value f) f [] body.
Proof.
  intros Hst Hbody. simpl. rewrite Hbody.
  destruct t as [|c t]; [done|]. destruct Hst as [_ Hc]. by rewrite app_cons, Hc.
Qed.

Lemma parse_value_object f body more :
  skip_ws body = String dquote more →
  parse_value (S f) (String "{" body) = parse_members (parse_value f) f [] body.
Proof. intros Hbody. simpl. by rewrite Hbody. Qed.

Lemma ser_parse_value fuel : ∀ v gap ind rest,
  wf v → size v ≤ fuel → ok_rest rest →
  ∃ t, ser gap ind v = Some t ∧ starts_value t
       ∧ parse_value fuel (t +:+ rest) = Some (v, rest).
Proof.
  induction fuel as [|f IH]; intros v gap ind rest Hwf Hsize Hrest.
  { pose proof (size_pos v). lia. }
  destruct v as [| |[]|lit|s|items|props].
  - done.
  - exists "null". by rewrite !app_cons.
  - exists "true". by rewrite !app_cons.
  - exists "false". by rewrite !app_cons.
  - exists lit. split; [done|]. by apply parse_number_lit.
  - exists (quote s). split; [done|]. split; [done|].
    unfold quote. rewrite app_cons. simpl. by rewrite parse_quote_body.
  - rewrite ser_VArr. eexists; split; [done|].
    split; [by apply starts_value_wrap|].
    apply wf_VArr in Hwf. rewrite size_VArr in Hsize.
    destruct items as [|e l]; [reflexivity|].
    assert (Forall (parses (parse_value f) gap (ind + gap)) (e :: l)) as Hall.
    { apply Forall_forall. intros e' Hin rest' Hrest'. apply IH; [|..|done].
      - by eapply Forall_forall in Hwf.
      - assert (size e' ≤ sum_list (size <$> e :: l)); [|lia].
        apply sum_list_elem. by apply list_elem_of_fmap_2. }
    pose proof (Forall_cons_1 _ _ _ Hall) as [He _].
    destruct (He "") as (te & Hte & Hst & _); [done|].
    destruct (join_head ("," +:+ break gap (ind + gap))
      te (ser_elems gap (ind + gap) l)) as [tail Htail].
    unfold wrap. rewrite (ser_elems_cons _ _ e l), Hte. simpl default.
    rewrite !app_assoc', app_cons, app_empty.
    erewrite parse_value_array; [|exact Hst|].
    2:{ rewrite skip_ws_break, Htail, app_assoc', skip_ws_starts by done. done. }
    replace te with (default "null" (ser gap (ind + gap) e)) by by rewrite Hte.
    rewrite <- ser_elems_cons.
    apply (parse_elements_ser _ _ _ _ (parse_value_skip_ws f) l e [] f rest Hall).
    pose proof (sum_list_size_ge (e :: l)). simpl in *. lia.
  - rewrite ser_VObj. eexists; split; [done|].
    split; [by apply starts_value_wrap|].
    apply wf_VObj in Hwf as [Hnd Hwf]. rewrite size_VObj in Hsize.
    destruct props as [|[k e] l]; [reflexivity|].
    assert (Forall (λ kv, parses (parse_value f) gap (ind + gap) kv.2) ((k, e) :: l))
      as Hall.
    { apply Forall_forall. intros kv Hin rest' Hrest'. apply IH; [|..|done].
      - by eapply Forall_forall in Hwf.
      - assert (size kv.2 ≤ sum_list ((λ kv, size kv.2) <$> (k, e) :: l)); [|lia].
        apply sum_list_elem. by apply (list_elem_of_fmap_2 (λ kv, size kv.2)). }
    pose proof (Forall_cons_1 _ _ _ Hall) as [He _]. simpl in He.
    destruct (He "") as (te & Hte & Hst & _); [done|].
    destruct (join_head ("," +:+ break gap (ind + gap))
      (quote k +:+ colon gap +:+ te) (ser_members gap (ind + gap) l)) as [tail Htail].
    unfold wrap. rewrite (ser_members_cons _ _ _ _ te) by done.
    rewrite !app_assoc', app_cons, app_empty.
    erewrite parse_value_object.
    2:{ rewrite skip_ws_break, Htail. unfold quote. by rewrite !app_assoc', !app_cons. }
    rewrite <- (ser_members_cons _ _ k e te l) by done.
    apply (parse_members_ser _ _ _ _ (parse_value_skip_ws f) l k e [] f rest Hall);
      [done|].
    assert (length ((k, e) :: l) ≤ sum_list ((λ kv, size kv.2) <$> (k, e) :: l)).
    { clear. induction ((k, e) :: l) as [|x l' IH']; [done|].
      rewrite fmap_cons. simpl. pose proof (size_pos x.2). lia. }
    simpl in *. lia.
Qed.

Lemma app_empty_r (s : string) : s +:+ "" = s.
Proof. induction s as [|c s IH]; [done|]. by rewrite app_cons, IH. Qed.

Lemma join_length sep l :
  sum_list (String.length <$> l) ≤ String.length (join sep l).
Proof.
  induction l as [|x l IH]; [done|]. rewrite fmap_cons. simpl sum_list.
  destruct l as [|y l]; [change (join sep [x]) with x; simpl; lia|].
  rewrite join_cons by done. rewrite !app_length'. lia.
Qed.

Lemma wrap_length (o c : ascii) gap ind l :
  S (sum_list (String.length <$> l))
  ≤ String.length (wrap (String o "") (String c "") gap ind l).
Proof.
  unfold wrap. destruct l as [|x l]; [simpl; lia|].
  rewrite !app_length'. pose proof (join_length ("," +:+ break gap (ind + gap)) (x :: l)).
  simpl String.length at 1. lia.
Qed.

Lemma ser_length n : ∀ v gap ind t,
  size v ≤ n → wf v → ser gap ind v = Some t → size v ≤ String.length t.
Proof.
  induction n as [|n IH]; intros v gap ind t Hn Hwf Hser.
  { pose proof (size_pos v). lia. }
  destruct v as [| |[]|lit|s|items|props];
    try (simpl in Hser; simplify_eq; simpl; lia).
  - simpl in Hser. simplify_eq.
    destruct (wf_number_head _ Hwf) as (c & r & -> & _). simpl. lia.
  - apply wf_VArr in Hwf. rewrite ser_VArr in Hser. rewrite size_VArr in *.
    simplify_eq. etrans; [|apply wrap_length]. apply le_n_S.
    induction items as [|e l IHl]; [done|].
    apply Forall_cons in Hwf as [He Hl]. rewrite ser_elems_cons, !fmap_cons in *.
    simpl sum_list in *.
    destruct (ser_parse_value (size e) e gap (ind + gap) "") as (te & Hte & _);
      [done..|].
    rewrite Hte. simpl default. pose proof (IH e gap (ind + gap) te).
    pose proof (size_pos e).
    assert (sum_list (size <$> l) ≤ sum_list (String.length <$> ser_elems gap (ind + gap) l)).
    { apply IHl; [lia|done]. }
    assert (size e ≤ String.length te) by (apply H; [lia|done..]). lia.
  - apply wf_VObj in Hwf as [_ Hwf]. rewrite ser_VObj in Hser. rewrite size_VObj in *.
    simplify_eq. etrans; [|apply wrap_length]. apply le_n_S.
    induction props as [|[k e] l IHl]; [done|].
    apply Forall_cons in Hwf as [He Hl]. simpl in He. rewrite !fmap_cons in *.
    simpl sum_list in *.
    destruct (ser_parse_value (size e) e gap (ind + gap) "") as (te & Hte & _);
      [done..|].
    rewrite (ser_members_cons _ _ _ _ te), fmap_cons by done. simpl sum_list.
    rewrite !app_length'.
    pose proof (IH e gap (ind + gap) te).
    assert (sum_list ((λ kv, size kv.2) <$> l)
            ≤ sum_list (String.length <$> ser_members gap (ind + gap) l)).
    { apply IHl; [lia|done]. }
    assert (size e ≤ String.length te) by (apply H; [lia|done..]). lia.
Qed.

(** [JSON.parse (JSON.stringify v)] gives [v] back, whatever the gap. *)
Lemma parse_ser v gap ind :
  wf v → ∃ t, ser gap ind v = Some t ∧ parse t = Some v.
Proof.
  intros Hwf.
  destruct (ser_parse_value (size v) v gap ind "" Hwf) as (t & Hser & _ & _); [done..|].
  exists t. split; [done|]. unfold parse.
  destruct (ser_parse_value (S (String.length t)) v gap ind "" Hwf)
    as (t' & Hser' & _ & Hp); [|done|].
  { pose proof (ser_length _ _ _ _ _ (le_n _) Hwf Hser). lia. }
  simplify_eq. rewrite app_empty_r in Hp. by rewrite Hp.
Qed.

Lemma span_all_chars p s tok rest : span p s = (tok, rest) → all_chars p tok = true.
Proof.
  revert tok rest. induction s as [|c s IH]; intros tok rest; simpl.
  - by intros [= <- <-].
  - destruct (p c) eqn:Hc; [|by intros [= <- <-]].
    destruct (span p s) as [tok' rest']. intros [= <- <-]. simpl.
    by rewrite Hc, (IH _ _ eq_refl).
Qed.

Lemma parse_number_wf s v r : parse_number s = Some (v, r) → wf v.
Proof.
  unfold parse_number. destruct (span is_num_char s) as [tok rest] eqn:Hspan.
  destruct (is_safe_integer tok) eqn:Hnum; [|done]. intros [= <- <-]. simpl.
  unfold wf_number. by rewrite (span_all_chars _ _ _ _ Hspan), Hnum.
Qed.

Lemma obj_define_keys acc k v :
  (obj_define acc k v).*1 = if decide (k ∈ acc.*1) then acc.*1 else acc.*1 ++ [k].
Proof.
  induction acc as [|[k' v'] acc IH]; [done|]. cbn [obj_define].
  destruct (String.eqb_spec k' k) as [->|Hne].
  - rewrite !fmap_cons. cbn [fst]. rewrite decide_True by left. done.
  - rewrite !fmap_cons. cbn [fst]. rewrite IH. destruct (decide (k ∈ acc.*1)).
    + rewrite decide_True by by right. done.
    + rewrite decide_False; [done|]. by intros [?|?]%elem_of_cons.
Qed.

Lemma obj_define_NoDup acc k v : NoDup acc.*1 → NoDup (obj_define acc k v).*1.
Proof.
  intros Hnd. rewrite obj_define_keys. case_decide; [done|].
  apply NoDup_app. split_and!; [done| |apply NoDup_singleton].
  intros x Hx ->%list_elem_of_singleton. done.
Qed.

Lemma obj_define_Forall (P : string * value → Prop) acc k v :
  Forall P acc → P (k, v) → Forall P (obj_define acc k v).
Proof.
  intros Hacc Hkv. induction Hacc as [|[k' v'] acc Hx Hacc IH]; simpl.
  - by constructor.
  - destruct (String.eqb k' k); by constructor.
Qed.

Section loops_wf.
Context (pv : string → option (value * string)).
Hypothesis pv_wf : ∀ s v r, pv s = Some (v, r) → wf v.

Lemma parse_elements_wf n : ∀ acc s v r,
  Forall wf acc → parse_elements pv n acc s = Some (v, r) → wf v.
Proof.
  induction n as [|n IH]; intros acc s v r Hacc; [done|]. simpl.
  destruct (pv s) as [[e r1]|] eqn:He; [|done]. simpl.
  assert (Forall wf (acc ++ [e])).
  { apply Forall_app. split; [done|]. constructor; [by eapply pv_wf|done]. }
  destruct (skip_ws r1) as [|c r2]; [done|].
  destruct (Ascii.eqb c ","); [by apply IH|].
  destruct (Ascii.eqb c "]"); [|done]. intros [= <- <-]. by apply wf_VArr.
Qed.

Lemma parse_members_wf n : ∀ acc s v r,
  NoDup acc.*1 → Forall (λ kv, wf kv.2) acc →
  parse_members pv n acc s = Some (v, r) → wf v.
Proof.
  induction n as [|n IH]; intros acc s v r Hnd Hacc; [done|]. simpl.
  destruct (skip_ws s) as [|q r0]; [done|].
  destruct (Ascii.eqb q dquote); [|done].
  destruct (parse_string_body r0) as [[k r1]|]; [|done]. simpl.
  destruct (skip_ws r1) as [|c r2]; [done|].
  destruct (Ascii.eqb c ":"); [|done].
  destruct (pv r2) as [[e r3]|] eqn:He; [|done]. simpl.
  pose proof (obj_define_NoDup acc k e Hnd).
  assert (Forall (λ kv, wf kv.2) (obj_define acc k e)).
  { apply obj_define_Forall; [done|]. by eapply pv_wf. }
  destruct (skip_ws r3) as [|d r4]; [done|].
  destruct (Ascii.eqb d ","); [by apply IH|].
  destruct (Ascii.eqb d "}"); [|done]. intros [= <- <-]. by apply wf_VObj.
Qed.

End loops_wf.

Lemma parse_value_wf fuel : ∀ s v r, parse_value fuel s = Some (v, r) → wf v.
Proof.
  induction fuel as [|f IH]; intros s v r; [done|]. cbn [parse_value].
  destruct (skip_ws s) as [|c r0]; [done|].
  destruct (Ascii.eqb c "{").
  { destruct (skip_ws r0) as [|c' r']; [done|].
    destruct (Ascii.eqb c' "}").
    - intros [= <- <-]. apply wf_VObj. split; [apply NoDup_nil_2|constructor].
    - apply parse_members_wf; [done|apply NoDup_nil_2|constructor]. }
  destruct (Ascii.eqb c "[").
  { destruct (skip_ws r0) as [|c' r']; [done|].
    destruct (Ascii.eqb c' "]").
    - by intros [= <- <-].
    - apply parse_elements_wf; [done|constructor]. }
  destruct (Ascii.eqb c dquote).
  { destruct (parse_string_body r0) as [[t r']|]; [|done]. by intros [= <- <-]. }
  destruct (Ascii.eqb c "n").
  { destruct (strip_prefix "ull" r0); [|done]. by intros [= <- <-]. }
  destruct (Ascii.eqb c "t").
  { destruct (strip_prefix "rue" r0); [|done]. by intros [= <- <-]. }
  destruct (Ascii.eqb c "f").
  { destruct (strip_prefix "alse" r0); [|done]. by intros [= <- <-]. }
  apply parse_number_wf.
Qed.

Lemma parse_wf s v : parse s = Some v → wf v.
Proof.
  unfold parse.
  destruct (parse_value _ s) as [[v' r]|] eqn:Hp; [|done]. simpl.
  destruct (skip_ws r); [|done]. intros [= <-]. by eapply parse_value_wf.
Qed.

(** ** Facts about objects *)

Lemma obj_get_define props k v k' :
  obj_get (obj_define props k v) k'
  = if String.eqb k k' then Some v else obj_get props k'.
Proof.
  induction props as [|[k0 v0] props IH]; simpl.
  - done.
  - destruct (String.eqb_spec k0 k) as [->|Hne]; simpl.
    + by destruct (String.eqb k k').
    + rewrite IH. destruct (String.eqb_spec k0 k') as [->|?]; [|done].
      by destruct (String.eqb_spec k k').
Qed.

Lemma obj_get_assign props k v k' :
  obj_get (obj_assign props k v) k'
  = if String.eqb k k' && negb (String.eqb k "__proto__")
    then Some v else obj_get props k'.
Proof.
  unfold obj_assign. destruct (String.eqb k "__proto__"); simpl.
  - by rewrite andb_false_r.
  - by rewrite obj_get_define, andb_true_r.
Qed.

Lemma obj_get_is_Some props k : is_Some (obj_get props k) ↔ k ∈ keys props.
Proof.
  unfold keys. induction props as [|[k0 v0] props IH].
  - split; [by intros [? ?]|by intros ?%elem_of_nil].
  - rewrite fmap_cons, elem_of_cons. cbn [obj_get fst].
    destruct (String.eqb_spec k0 k) as [->|Hne]; [by split; eauto|].
    rewrite IH. split; [by right|]. by intros [?|?].
Qed.

Lemma obj_assign_NoDup props k v : NoDup props.*1 → NoDup (obj_assign props k v).*1.
Proof. unfold obj_assign. destruct (String.eqb _ _); [done|]. apply obj_define_NoDup. Qed.

Lemma obj_assign_Forall (P : string * value → Prop) props k v :
  Forall P props → P (k, v) → Forall P (obj_assign props k v).
Proof. unfold obj_assign. destruct (String.eqb _ _); [done|]. apply obj_define_Forall. Qed.

Lemma ser_None gap ind v : ser gap ind v = None ↔ defined v = false.
Proof. destruct v as [| |[]| | | |]; done. Qed.

Lemma ser_members_undefined gap ind k e l :
  ser gap ind e = None → ser_members gap ind ((k, e) :: l) = ser_members gap ind l.
Proof. intros H. unfold ser_members. simpl. by rewrite H. Qed.

Lemma ser_members_prune gap ind props :
  ser_members gap ind (prune props) = ser_members gap ind props.
Proof.
  unfold prune. induction props as [|[k e] props IH]; [done|].
  destruct (defined e) eqn:He.
  - rewrite filter_cons_True by done.
    destruct (ser gap ind e) as [t|] eqn:Hser.
    + by rewrite !(ser_members_cons _ _ _ _ t), IH.
    + apply ser_None in Hser. congruence.
  - rewrite filter_cons_False by (simpl; congruence).
    apply (ser_None gap ind) in He. by rewrite ser_members_undefined.
Qed.

Lemma ser_prune gap ind props :
  ser gap ind (VObj props) = ser gap ind (VObj (prune props)).
Proof. by rewrite !ser_VObj, ser_members_prune. Qed.

Lemma obj_get_prune props k :
  NoDup props.*1 →
  obj_get (prune props) k
  = match obj_get props k with
    | Some v => if defined v then Some v else None
    | None => None
    end.
Proof.
  unfold prune. induction props as [|[k0 v0] props IH]; [done|].
  rewrite fmap_cons. intros [Hnin Hnd]%NoDup_cons. simpl in Hnin.
  destruct (defined v0) eqn:Hv.
  - rewrite filter_cons_True by done. simpl.
    destruct (String.eqb k0 k); [by rewrite Hv|by apply IH].
  - rewrite filter_cons_False by (simpl; congruence). simpl.
    destruct (String.eqb_spec k0 k) as [->|?]; [|by apply IH].
    rewrite Hv, IH by done.
    destruct (obj_get props k) eqn:Hget; [|done].
    destruct Hnin. apply obj_get_is_Some. eauto.
Qed.

Lemma prune_NoDup props : NoDup props.*1 → NoDup (prune props).*1.
Proof.
  unfold prune. induction props as [|[k0 v0] props IH]; [done|].
  rewrite fmap_cons. intros [Hnin Hnd]%NoDup_cons.
  destruct (decide (defined v0 = true)).
  - rewrite filter_cons_True by done. rewrite fmap_cons. apply NoDup_cons.
    split; [|by apply IH]. intros Hin. apply Hnin.
    apply list_elem_of_fmap in Hin as (kv & -> & Hin).
    apply list_elem_of_filter in Hin as [_ Hin]. by apply list_elem_of_fmap_2.
  - rewrite filter_cons_False by done. by apply IH.
Qed.

Lemma prune_wf props :
  NoDup props.*1 → Forall (λ kv, defined kv.2 = true → wf kv.2) props →
  wf (VObj (prune props)).
Proof.
  intros Hnd Hall. apply wf_VObj. split; [by apply prune_NoDup|].
  unfold prune. apply Forall_forall. intros kv [Hd Hin]%list_elem_of_filter.
  eapply Forall_forall in Hall; [|exact Hin]. by apply Hall.
Qed.

(** [JSON.parse] of what [JSON.stringify] writes for an object gives the
    object without its [undefined] properties. *)
Lemma parse_stringify_object gap props :
  NoDup props.*1 → Forall (λ kv, defined kv.2 = true → wf kv.2) props →
  ∃ text, ser gap 0 (VObj props) = Some text ∧ parse text = Some (VObj (prune props)).
Proof.
  intros Hnd Hall. rewrite ser_prune. apply parse_ser. by apply prune_wf.
Qed.

(** ** [_env2json] *)

Lemma reduce_snapshot vars : ∀ init w,
  reduce vars (λ env v, x ← getenv v; mret (obj_assign env v x)) init w
  = (Ok (snapshot w vars init), w).
Proof. induction vars as [|v vars IH]; intros init w; [done|]. apply IH. Qed.

Lemma snapshot_get w vars : ∀ init k,
  obj_get (snapshot w vars init) k
  = if bool_decide (k ∈ vars) && negb (String.eqb k "__proto__")
    then Some (env_value w k) else obj_get init k.
Proof.
  induction vars as [|v vars IH]; intros init k; [done|].
  cbn [snapshot fold_left]. fold (snapshot w vars (obj_assign init v (env_value w v))).
  rewrite IH, obj_get_assign.
  destruct (String.eqb_spec v k) as [->|Hne].
  - rewrite (bool_decide_eq_true_2 (k ∈ k :: vars)) by left.
    destruct (String.eqb k "__proto__"); simpl; [by rewrite andb_false_r|].
    by destruct (bool_decide (k ∈ vars)).
  - simpl. destruct (decide (k ∈ vars)) as [Hin|Hnin].
    + rewrite !bool_decide_eq_true_2; [done|by right|done].
    + rewrite !bool_decide_eq_false_2; [done| |done].
      by intros [?|?]%elem_of_cons.
Qed.

Lemma snapshot_invariant (P : string * value → Prop) w vars : ∀ init,
  (∀ k, P (k, env_value w k)) →
  NoDup init.*1 → Forall P init →
  NoDup (snapshot w vars init).*1 ∧ Forall P (snapshot w vars init).
Proof.
  induction vars as [|v vars IH]; intros init HP Hnd Hall; [done|].
  apply IH; [done|by apply obj_assign_NoDup|by apply obj_assign_Forall].
Qed.

Lemma env_value_wf w k : defined (env_value w k) = true → wf (env_value w k).
Proof. unfold env_value. by destruct (process_env w !! k). Qed.

Lemma snapshot_pruned_get w vars k :
  obj_get (prune (snapshot w vars [])) k
  = if bool_decide (k ∈ vars) && negb (String.eqb k "__proto__")
    then VStr <$> process_env w !! k else None.
Proof.
  destruct (snapshot_invariant (λ _, True) w vars []) as [Hnd _];
    [done|apply NoDup_nil_2|constructor|].
  rewrite obj_get_prune, snapshot_get by done.
  destruct (_ && _); [|done]. unfold env_value.
  by destruct (process_env w !! k).
Qed.

(** What a run of [_env2json] on at least one name does when the host takes
    the write: one write, of a text that parses to the snapshot without its
    [undefined] properties. *)
Lemma env2json_run chalk vars outputFile w :
  vars ≠ [] →
  (∀ data, refuses w (WriteFile (output_path outputFile) data) = None) →
  ∃ text,
    _env2json chalk vars outputFile w
    = (Ok (), with_files (<[resolve w (output_path outputFile) := text]> (files w))
                (record (WriteFile (output_path outputFile) text) w))
    ∧ parse text = Some (VObj (prune (snapshot w vars []))).
Proof.
  intros Hvars Hwrite.
  destruct (snapshot_invariant (λ kv, defined kv.2 = true → wf kv.2) w vars [])
    as [Hnd Hall]; [apply env_value_wf|apply NoDup_nil_2|constructor|].
  destruct (parse_stringify_object 0 _ Hnd Hall) as (text & Hser & Hparse).
  exists text. split; [|done].
  unfold _env2json. rewrite bool_decide_eq_false_2 by by destruct vars.
  unfold mbind at 1, M_bind at 1, mret at 1, M_ret at 1.
  unfold mbind, M_bind. rewrite reduce_snapshot.
  unfold stringify. rewrite Hser. simpl default.
  unfold try_catch, writeFileSync, perform. fold (output_path outputFile).
  by rewrite Hwrite.
Qed.

(** The keys of the object [_env2json] writes: the requested names that are
    set, [__proto__] excepted. *)
Lemma env2json_keys chalk vars outputFile w :
  vars ≠ [] →
  (∀ data, refuses w (WriteFile (output_path outputFile) data) = None) →
  ∃ text props,
    files (_env2json chalk vars outputFile w).2 !! resolve w (output_path outputFile)
    = Some text
    ∧ parse text = Some (VObj props)
    ∧ ∀ k, k ∈ keys props
           ↔ k ∈ vars ∧ k ≠ "__proto__" ∧ is_Some (process_env w !! k).
Proof.
  intros Hvars Hwrite.
  destruct (env2json_run chalk vars outputFile w Hvars Hwrite) as (text & -> & Hparse).
  exists text, (prune (snapshot w vars [])). split_and!; [apply lookup_insert_eq|done|].
  intros k. rewrite <- obj_get_is_Some, snapshot_pruned_get.
  destruct (decide (k ∈ vars)) as [Hin|Hnin].
  - rewrite bool_decide_eq_true_2 by done.
    destruct (String.eqb_spec k "__proto__") as [->|Hne]; simpl.
    + split; [by intros [? ?]|tauto].
    + rewrite fmap_is_Some. tauto.
  - rewrite bool_decide_eq_false_2 by done. simpl.
    split; [by intros [? ?]|tauto].
Qed.

(** Through [run]: [env2json] with no name after it ends the process with
    status 1 and leaves the files alone, with or without [--help]. *)
Lemma run_env2json_no_names isWin appName chalk asciiLogo this w :
  _args this !! 0 = Some "env2json" →
  drop 1 (positional (_options this)) = [] →
  (run isWin appName chalk asciiLogo this w).1 = Exit 1%Z
  ∧ files (run isWin appName chalk asciiLogo this w).2 = files w.
Proof.
  intros Hcmd Hpos. unfold run. rewrite Hcmd, Hpos.
  by destruct (opt_help (_options this)).
Qed.




(** C3.  With no names, [_env2json] prints the usage error and ends the
    process with status 1; it writes nothing, and the files are as they
    were. *)
Theorem env2json_no_names_exits chalk outputFile w :
  let r := _env2json chalk [] outputFile w in
  r.1 = Exit 1%Z
  ∧ trace r.2 = trace w ++ [ConsoleError (chalk red "Missing arguments" +:+ nl)]
  ∧ writes (trace r.2) = writes (trace w)
  ∧ files r.2 = files w.
Proof.
  split_and!; try done. simpl. unfold writes. by rewrite omap_app, app_nil_r.
Qed.

(** C10, evaluated where it fails: the name [__proto__] is set and requested,
    and the object written has no key at all. *)
Theorem env2json_proto_not_exported :
  let w := world0 {["__proto__" := "x"]} ∅ in
  let r := _env2json plain ["__proto__"] None w in
  process_env w !! "__proto__" = Some "x"
  ∧ r.1 = Ok ()
  ∧ files r.2 !! "/app/src/environments/.env.json" = Some "{}"
  ∧ parse "{}" = Some (VObj []).
Proof. split_and!; reflexivity. Qed.

(** ** Which calls a computation can make *)

Section emits.
Context (P : event → Prop).

Lemma emits_ret {A} (a : A) : emits P (mret a).
Proof. intros w. exists []. by rewrite app_nil_r. Qed.

Lemma emits_throw {A} msg : emits P (@throw A msg).
Proof. intros w. exists []. by rewrite app_nil_r. Qed.

Lemma emits_exit {A} code : emits P (@process_exit A code).
Proof. intros w. exists []. by rewrite app_nil_r. Qed.

Lemma emits_cwd : emits P cwd.
Proof. intros w. exists []. by rewrite app_nil_r. Qed.

Lemma emits_emit e : P e → emits P (emit e).
Proof. intros He w. exists [e]. split; [done|by constructor]. Qed.

Lemma emits_perform e effect :
  P e → (∀ w, trace (effect w) = trace w) → emits P (perform e effect).
Proof.
  intros He Heff w. exists [e]. split; [|by constructor].
  unfold perform. destruct (refuses w e); [done|]. simpl. by rewrite Heff.
Qed.

Lemma emits_bind {A B} (m : M A) (f : A → M B) :
  emits P m → (∀ a, emits P (f a)) → emits P (m ≫= f).
Proof.
  intros Hm Hf w. destruct (Hm w) as (t1 & Ht1 & HP1).
  unfold mbind, M_bind. destruct (m w) as [[a|e|c] w1]; simpl in *.
  - destruct (Hf a w1) as (t2 & Ht2 & HP2). exists (t1 ++ t2).
    split; [by rewrite Ht2, Ht1, app_assoc|by apply Forall_app].
  - by exists t1.
  - by exists t1.
Qed.

Lemma emits_try_catch {A} (m : M A) (h : string → M A) :
  emits P m → (∀ e, emits P (h e)) → emits P (try_catch m h).
Proof.
  intros Hm Hh w. destruct (Hm w) as (t1 & Ht1 & HP1).
  unfold try_catch. destruct (m w) as [[a|e|c] w1]; simpl in *.
  - by exists t1.
  - destruct (Hh e w1) as (t2 & Ht2 & HP2). exists (t1 ++ t2).
    split; [by rewrite Ht2, Ht1, app_assoc|by apply Forall_app].
  - by exists t1.
Qed.

Lemma emits_if {A} (b : bool) (m1 m2 : M A) :
  emits P m1 → emits P m2 → emits P (if b then m1 else m2).
Proof. by destruct b. Qed.

End emits.

Ltac emits_step :=
  first
    [ apply emits_ret | apply emits_throw | apply emits_exit | apply emits_cwd
    | apply emits_bind; [|intros ?]
    | apply emits_try_catch; [|intros ?]
    | apply emits_if
    | apply emits_emit; solve [exact I | simpl; tauto]
    | apply emits_perform; [solve [exact I | simpl; tauto]|done] ].

Lemma spawns_app t1 t2 : spawns (t1 ++ t2) = spawns t1 ++ spawns t2.
Proof. apply omap_app. Qed.

Lemma spawns_none t : Forall (λ e, ¬ is_spawn e) t → spawns t = [].
Proof.
  induction 1 as [|e t He _ IH]; [done|].
  destruct e; try exact IH. by destruct He.
Qed.

Lemma perform_ok e effect w :
  refuses w e = None → perform e effect w = (Ok (), effect (record e w)).
Proof. intros H. unfold perform. by rewrite H. Qed.

Lemma perform_refused e effect w msg :
  refuses w e = Some msg → perform e effect w = (Throw msg, record e w).
Proof. intros H. unfold perform. by rewrite H. Qed.

Lemma bind_run {A B} (m : M A) (f : A → M B) w :
  (m ≫= f) w
  = match m w with
    | (Ok a, w') => f a w'
    | (Throw e, w') => (Throw e, w')
    | (Exit c, w') => (Exit c, w')
    end.
Proof. done. Qed.

Lemma bind_ret_l {A B} (a : A) (f : A → M B) : mret a ≫= f = f a.
Proof. done. Qed.

(** [_cordova] is its two [spawnSync] calls followed, under the test, by the
    copy step. *)
Lemma _cordova_run isWin chalk options w :
  _cordova isWin chalk options w
  = (if bool_decide (positional options !! 0 = Some "build") && truthy (opt_copy options)
     then copy_step isWin chalk options else mret ())
      (record (SpawnSync "cordova" (cordovaOptions options))
         (if opt_fast options then w
          else record (SpawnSync (if opt_yarn options then "yarn" else "npm run")
                         (buildOptions options)) w)).
Proof. unfold _cordova. by destruct (opt_fast options). Qed.

(** The copy step starts no program with [spawnSync]. *)
Lemma copy_step_no_spawn isWin chalk options :
  emits (λ e, ¬ is_spawn e) (copy_step isWin chalk options).
Proof.
  unfold copy_step, _exit, _copy, or_else, ensureDirSync, execSync, console_log,
    console_error.
  repeat emits_step; try (destruct a0); repeat emits_step.
Qed.

(** C7.  With [--fast] the only program [_cordova] starts is [cordova], once,
    with the packaging arguments: the build command is not started. *)
Theorem cordova_fast_only_packages isWin chalk options w :
  opt_fast options = true →
  spawns (trace (_cordova isWin chalk options w).2)
  = spawns (trace w) ++ [("cordova", cordovaOptions options)].
Proof.
  intros Hfast. rewrite _cordova_run, Hfast.
  set (w1 := record (SpawnSync "cordova" (cordovaOptions options)) w).
  assert (spawns (trace w1) = spawns (trace w) ++ [("cordova", cordovaOptions options)])
    as <- by apply spawns_app.
  destruct (bool_decide _ && truthy _); [|done].
  destruct (copy_step_no_spawn isWin chalk options w1) as (t & -> & Hall).
  rewrite spawns_app, (spawns_none t Hall). apply app_nil_r.
Qed.

Lemma cordova_fast_only_packages_witness :
  spawns (trace (_cordova false plain
    (Options ["cordova"; "run"; "android"] false true false true false false
             false false false false None None None None) (world0 ∅ ∅)).2)
  = [("cordova", ["run"; "android"; "--no-telemetry"; "--device"])].
Proof.
  apply (cordova_fast_only_packages false plain
    (Options ["cordova"; "run"; "android"] false true false true false false
             false false false false None None None None) (world0 ∅ ∅)).
  reflexivity.
Defined.

(** ** Removing *)

Lemma removals_app t1 t2 : removals (t1 ++ t2) = removals t1 ++ removals t2.
Proof. apply omap_app. Qed.

Lemma logs_app t1 t2 : logs (t1 ++ t2) = logs t1 ++ logs t2.
Proof. apply omap_app. Qed.

Lemma files_remove_tree w p q :
  files (remove_tree p w) !! q
  = if under (resolve w p) q then None else files w !! q.
Proof.
  unfold remove_tree. simpl. destruct (under (resolve w p) q) eqn:Hu.
  - apply eq_None_not_Some. intros [x Hx].
    apply map_lookup_filter_Some in Hx as [_ Hx]. simpl in Hx. congruence.
  - apply option_eq. intros x. rewrite map_lookup_filter_Some. simpl. tauto.
Qed.

Lemma files_removed chalk w p q :
  files (removed chalk w p) !! q
  = if under (resolve w p) q then None else files w !! q.
Proof. apply (files_remove_tree (record (RemovePath p) w)). Qed.

Lemma removed_refuses chalk w p : refuses (removed chalk w p) = refuses w.
Proof. done. Qed.

Lemma removed_cwd chalk w p : process_cwd (removed chalk w p) = process_cwd w.
Proof. done. Qed.

Lemma removed_trace chalk w p :
  trace (removed chalk w p)
  = trace w ++ [RemovePath p; ConsoleLog ("Removed " +:+ chalk yellow p)].
Proof. unfold removed. simpl. by rewrite <- app_assoc. Qed.

Lemma foldl_removed_refuses chalk ps : ∀ w,
  refuses (foldl (removed chalk) w ps) = refuses w.
Proof. induction ps as [|p ps IH]; intros w; [done|]. simpl. by rewrite IH. Qed.

Lemma foldl_removed_cwd chalk ps : ∀ w,
  process_cwd (foldl (removed chalk) w ps) = process_cwd w.
Proof. induction ps as [|p ps IH]; intros w; [done|]. simpl. by rewrite IH. Qed.

Lemma foldl_removed_removals chalk ps : ∀ w,
  removals (trace (foldl (removed chalk) w ps)) = removals (trace w) ++ ps.
Proof.
  induction ps as [|p ps IH]; intros w; simpl; [by rewrite app_nil_r|].
  rewrite IH, removed_trace, removals_app, <- app_assoc. done.
Qed.

Lemma foldl_removed_logs chalk ps : ∀ w,
  logs (trace (foldl (removed chalk) w ps))
  = logs (trace w) ++ ((λ p, "Removed " +:+ chalk yellow p) <$> ps).
Proof.
  induction ps as [|p ps IH]; intros w; simpl; [by rewrite app_nil_r|].
  rewrite IH, removed_trace, logs_app, <- app_assoc. done.
Qed.


Lemma resolve_cwd w w' p : process_cwd w' = process_cwd w → resolve w' p = resolve w p.
Proof. unfold resolve. by intros ->. Qed.



(** [_remove] on a path the host lets go, and on one it does not. *)
Lemma _remove_ok chalk p w :
  refuses w (RemovePath p) = None →
  _remove chalk (VStr p) w = (Ok (), removed chalk w p).
Proof.
  intros Hok. unfold _remove, try_catch, removeSync, mbind, M_bind, perform.
  by rewrite Hok.
Qed.

Lemma _remove_refused chalk p w msg :
  refuses w (RemovePath p) = Some msg →
  _remove chalk (VStr p) w
  = (Exit 1%Z,
     record (ConsoleError (chalk red ("Error while removing " +:+ p +:+ ": " +:+ msg)))
       (record (RemovePath p) w)).
Proof.
  intros Hno. unfold _remove, try_catch, removeSync, mbind, M_bind, perform.
  by rewrite Hno.
Qed.

Lemma forEach_remove chalk apps : ∀ dirs w,
  mapM (λ app,
          match app with
          | VObj fields =>
              match obj_get fields "outDir" with
              | Some (VStr dir) => Some dir
              | _ => None
              end
          | _ => None
          end) apps = Some dirs →
  (∀ p, refuses w (RemovePath p) = None) →
  forEach apps (λ app, outDir ← get_prop app "outDir"; _remove chalk outDir) w
  = (Ok (), foldl (removed chalk) w dirs).
Proof.
  induction apps as [|app apps IH]; intros dirs w Hdirs%mapM_Some Hok;
    inversion Hdirs as [|? dir ? dirs' Happ Hrest]; subst; [done|].
  destruct app as [| | | | | |fields]; try done.
  destruct (obj_get fields "outDir") as [[| | | |dir'| |]|] eqn:Hget; try done.
  simplify_eq. cbn [forEach]. unfold mbind at 1, M_bind at 1.
  unfold mbind at 1, M_bind at 1. unfold get_prop. rewrite Hget. simpl.
  unfold mret at 1, M_ret at 1. rewrite _remove_ok by done.
  apply IH; [by apply mapM_Some|]. intros p. by rewrite removed_refuses.
Qed.

(** ** [_clean] *)

Lemma eqb_app_l (a b c : string) : String.eqb (a +:+ b) (a +:+ c) = String.eqb b c.
Proof.
  induction a as [|x a IH]; [done|]. rewrite !app_cons. simpl.
  by rewrite Ascii.eqb_refl.
Qed.

Lemma starts_with_app_l (a b c : string) :
  starts_with (a +:+ b) (a +:+ c) = starts_with b c.
Proof.
  induction a as [|x a IH]; [done|]. rewrite !app_cons. simpl.
  by rewrite Ascii.eqb_refl.
Qed.

Lemma absolute_join dir p : absolute dir = true → absolute (path_join dir p) = true.
Proof.
  destruct dir as [|c dir]; [done|]. unfold absolute, path_join.
  by rewrite app_cons.
Qed.

(** The build configuration does not lie under [platforms] or [plugins]. *)
Lemma config_not_under w p :
  absolute (process_cwd w) = true →
  p = "platforms" ∨ p = "plugins" →
  under (resolve w p) (path_join (process_cwd w) ".angular-cli.json") = false.
Proof.
  intros Habs [-> | ->]; unfold under, resolve, path_join; simpl;
    rewrite !app_assoc', eqb_app_l, starts_with_app_l; done.
Qed.







(** C9, evaluated where it fails.  The removal of an explicit path is a bare
    [fs.removeSync]: when the host refuses it the error leaves [run] uncaught,
    with nothing printed by the program and no [process.exit]; when the host
    takes it, nothing is logged.  [_remove], used for every other path, does
    both. *)
Theorem clean_path_removal_unguarded :
  let options := Options ["clean"] false false false false false false false false
                         false false None None None (Some "tmp") in
  let this := Instance_ ["clean"; "--path"; "tmp"] options in
  let denied := World ∅ "/app" ∅ ∅
                  (λ e, match e with
                        | RemovePath _ => Some "EACCES: permission denied"
                        | _ => None
                        end) [] in
  run false "ngx-scripts" plain "logo" this denied
  = (Throw "EACCES: permission denied", record (RemovePath "tmp") denied)
  ∧ run false "ngx-scripts" plain "logo" this (world0 ∅ ∅)
    = (Ok (), remove_tree "tmp" (record (RemovePath "tmp") (world0 ∅ ∅)))
  ∧ logs (trace (run false "ngx-scripts" plain "logo" this (world0 ∅ ∅)).2) = []
  ∧ _remove plain (VStr "tmp") denied
    = (Exit 1%Z,
       record (ConsoleError "Error while removing tmp: EACCES: permission denied")
         (record (RemovePath "tmp") denied))
  ∧ logs (trace (_remove plain (VStr "tmp") (world0 ∅ ∅)).2) = ["Removed tmp"].
Proof. split_and!; reflexivity. Qed.

(** ** [_unpinIonicDependencies] *)



(** ** [_cordova] and the copy step *)

(** X23.  Dispatched by [run], [_cordova] sees the command name as the first
    positional argument, so the test for [build] fails and the copy step is
    never entered: the run starts the build (unless [--fast]) and [cordova],
    and returns. *)
Lemma run_cordova_skips_copy isWin appName chalk asciiLogo this w :
  opt_help (_options this) = false →
  _args this !! 0 = Some "cordova" →
  command_is_first_positional this →
  run isWin appName chalk asciiLogo this w
  = (Ok (),
     record (SpawnSync "cordova" (cordovaOptions (_options this)))
       (if opt_fast (_options this) then w
        else record (SpawnSync (if opt_yarn (_options this) then "yarn" else "npm run")
                       (buildOptions (_options this))) w)).
Proof.
  intros Hhelp Hcmd Hpos. unfold run. rewrite Hhelp, Hcmd. simpl.
  unfold _cordova. rewrite (Hpos "cordova") by done.
  rewrite bool_decide_eq_false_2 by discriminate. simpl.
  by destruct (opt_fast _).
Qed.

(** The copy step on a host that creates the directory and fails both copy
    commands. *)
Lemma copy_step_no_builds isWin chalk options w dest m1 m2 :
  opt_copy options = Some dest →
  refuses w (EnsureDir dest) = None →
  refuses w (ExecSync (copy_command isWin (androidPath options) dest)) = Some m1 →
  refuses w (ExecSync (copy_command isWin iosPath dest)) = Some m2 →
  copy_step isWin chalk options w
  = (Exit 1%Z,
     record (ConsoleError (chalk red "Error during apps copy: No app builds found"))
       (record (ExecSync (copy_command isWin iosPath dest))
          (record (ExecSync (copy_command isWin (androidPath options) dest))
             (with_dirs ({[resolve w dest]} ∪ dirs w) (record (EnsureDir dest) w))))).
Proof.
  intros Hcopy Hdir H1 H2.
  unfold copy_step. rewrite Hcopy. change (get (Some dest)) with dest.
  unfold try_catch at 1. rewrite bind_run. unfold ensureDirSync.
  rewrite perform_ok by done.
  rewrite bind_run. unfold or_else at 1, _copy at 1, try_catch at 1.
  rewrite bind_run. unfold execSync at 1.
  rewrite (perform_refused _ _ _ m1) by done. unfold mret at 1, M_ret at 1.
  rewrite bind_run. unfold or_else at 1, _copy at 1, try_catch at 1.
  rewrite bind_run. unfold execSync at 1.
  rewrite (perform_refused _ _ _ m2) by done. unfold mret at 1, M_ret at 1.
  done.
Qed.

(** X9.  Called with [build] as first positional argument and a destination,
    on a host that creates the directory and fails both copy commands, [_cordova]
    prints the error and ends the process with status 1. *)
Lemma cordova_no_builds_found isWin chalk options w dest :
  positional options !! 0 = Some "build" →
  opt_copy options = Some dest → dest ≠ "" →
  refuses w (EnsureDir dest) = None →
  (∀ c, is_Some (refuses w (ExecSync c))) →
  let r := _cordova isWin chalk options w in
  r.1 = Exit 1%Z
  ∧ errors (trace r.2)
    = errors (trace w) ++ [chalk red "Error during apps copy: No app builds found"]
  ∧ resolve w dest ∈ dirs r.2.
Proof.
  intros Hpos Hcopy Hdest Hdir Hexec r. unfold r. rewrite _cordova_run.
  assert (truthy (opt_copy options) = true) as ->
    by (rewrite Hcopy; simpl; by destruct (String.eqb_spec dest "")).
  rewrite bool_decide_eq_true_2 by done. change (true && true) with true. cbv iota.
  set (w1 := record _ _).
  assert (refuses w1 = refuses w) as Hw1 by (unfold w1; by destruct (opt_fast _)).
  assert (errors (trace w1) = errors (trace w)) as <-.
  { unfold w1, errors. destruct (opt_fast _); simpl; rewrite !omap_app; simpl;
      by rewrite ?app_nil_r. }
  assert (resolve w1 dest = resolve w dest) as <-
    by (unfold w1; by destruct (opt_fast _)).
  destruct (Hexec (copy_command isWin (androidPath options) dest)) as [m1 H1].
  destruct (Hexec (copy_command isWin iosPath dest)) as [m2 H2].
  rewrite (copy_step_no_builds isWin chalk options w1 dest m1 m2)
    by (by rewrite ?Hw1).
  split_and!; [done| |set_solver].
  unfold errors. simpl. rewrite !omap_app. simpl. by rewrite !app_nil_r.
Qed.

(** Once the Android copy has succeeded the copy step logs and returns: the
    command for the iOS artifacts is not run, whatever the host would have
    answered. *)
Lemma copy_step_stops_after_android isWin chalk options w dest :
  opt_copy options = Some dest →
  refuses w (EnsureDir dest) = None →
  refuses w (ExecSync (copy_command isWin (androidPath options) dest)) = None →
  copy_step isWin chalk options w
  = (Ok (),
     record (ConsoleLog ("Apps copied to " +:+ chalk cyan dest +:+ " folder"))
       (record (ExecSync (copy_command isWin (androidPath options) dest))
          (with_dirs ({[resolve w dest]} ∪ dirs w) (record (EnsureDir dest) w)))).
Proof.
  intros Hcopy Hdir Handroid.
  unfold copy_step. rewrite Hcopy. change (get (Some dest)) with dest.
  unfold try_catch at 1. rewrite bind_run. unfold ensureDirSync.
  rewrite perform_ok by done.
  rewrite bind_run. unfold or_else at 1, _copy at 1, try_catch at 1.
  rewrite bind_run. unfold execSync at 1.
  rewrite perform_ok by done. done.
Qed.

(** C2, evaluated where it fails, on a host where both copy commands would
    succeed.  Entered with [build] as first positional argument, [_cordova]
    copies the Android artifacts and never runs the copy of the iOS ones.
    Dispatched by [run] on [cordova build --copy out], it creates no
    directory and copies nothing at all. *)
Theorem cordova_copy_skips_ios :
  let direct := Options ["build"] false true false false false false false false
                        false false None (Some "out") None None in
  let parsed := Options ["cordova"; "build"] false true false false false false false
                        false false false None (Some "out") None None in
  let this := Instance_ ["cordova"; "build"; "--fast"; "--copy"; "out"] parsed in
  let entered := _cordova false plain direct (world0 ∅ ∅) in
  let dispatched := run false "ngx-scripts" plain "logo" this (world0 ∅ ∅) in
  entered.1 = Ok ()
  ∧ execs (trace entered.2)
    = ["cp -Rf platforms/android/build/outputs/apk/*-debug.apk out"]
  ∧ logs (trace entered.2) = ["Apps copied to out folder"]
  ∧ dispatched.1 = Ok ()
  ∧ trace dispatched.2 = [SpawnSync "cordova" ["build"; "--no-telemetry"]]
  ∧ dirs dispatched.2 = ∅.
Proof. split_and!; reflexivity. Qed.

(** C4, evaluated where it fails, on a host where every copy command fails
    because nothing was built: [run] on [cordova build --copy out] starts the
    build and [cordova] and returns; it prints no error and does not end the
    process. *)
Theorem run_cordova_build_copy_no_error :
  let parsed := Options ["cordova"; "build"] false false false false false false false
                        false false false None (Some "out") None None in
  let this := Instance_ ["cordova"; "build"; "--copy"; "out"] parsed in
  let nothing_built :=
    World ∅ "/app" ∅ ∅
      (λ e, match e with ExecSync _ => Some "Command failed" | _ => None end) [] in
  let r := run false "ngx-scripts" plain "logo" this nothing_built in
  r.1 = Ok ()
  ∧ trace r.2 = [SpawnSync "npm run" ["build"; "--"];
                 SpawnSync "cordova" ["build"; "--no-telemetry"]]
  ∧ errors (trace r.2) = []
  ∧ dirs r.2 = ∅.
Proof. split_and!; reflexivity. Qed.

(** ** How a computation can end *)

Section outcome.
Context (throws : bool).

Lemma outcome_weaken {A} (m : M A) : outcome false m → outcome throws m.
Proof. intros H w. specialize (H w). by destruct (m w).1. Qed.

Lemma outcome_ret {A} (a : A) : outcome throws (mret a).
Proof. by intros w. Qed.

Lemma outcome_exit {A} : outcome throws (@process_exit A 1%Z).
Proof. by intros w. Qed.

Lemma outcome_emit e : outcome throws (emit e).
Proof. by intros w. Qed.

Lemma outcome_cwd : outcome throws cwd.
Proof. by intros w. Qed.

Lemma outcome_getenv name : outcome throws (getenv name).
Proof. by intros w. Qed.

Lemma outcome_bind {A B} (m : M A) (f : A → M B) :
  outcome throws m → (∀ a, outcome throws (f a)) → outcome throws (m ≫= f).
Proof.
  intros Hm Hf w. specialize (Hm w). unfold mbind, M_bind.
  destruct (m w) as [[a|e|c] w1]; [apply Hf|done..].
Qed.

(** A [try] makes up for whatever its body throws. *)
Lemma outcome_try_catch {A} (m : M A) (h : string → M A) :
  outcome true m → (∀ e, outcome throws (h e)) → outcome throws (try_catch m h).
Proof.
  intros Hm Hh w. specialize (Hm w). unfold try_catch.
  destruct (m w) as [[a|e|c] w1]; [done|apply Hh|done].
Qed.

Lemma outcome_if {A} (b : bool) (m1 m2 : M A) :
  outcome throws m1 → outcome throws m2 → outcome throws (if b then m1 else m2).
Proof. by destruct b. Qed.

End outcome.

Lemma outcome_throw {A} msg : outcome true (@throw A msg).
Proof. by intros w. Qed.

Lemma outcome_perform e effect : outcome true (perform e effect).
Proof. intros w. unfold perform. by destruct (refuses w e). Qed.

Lemma outcome_require path : outcome true (require path).
Proof. intros w. unfold require. by repeat case_match. Qed.

Lemma outcome_get_prop v k : outcome true (get_prop v k).
Proof. by destruct v. Qed.

Lemma outcome_set_prop v k x : outcome true (set_prop v k x).
Proof. by destruct v. Qed.

Lemma outcome_removeSync path : outcome true (removeSync path).
Proof. destruct path; try apply outcome_throw. apply outcome_perform. Qed.

Lemma outcome_reduce {A B} throws (items : list A) (f : B → A → M B) :
  (∀ b a, outcome throws (f b a)) → ∀ init, outcome throws (reduce items f init).
Proof.
  intros Hf. induction items as [|x items IH]; intros init; [apply outcome_ret|].
  apply outcome_bind; [apply Hf|apply IH].
Qed.

Lemma outcome_forEach {A} throws (items : list A) (f : A → M unit) :
  (∀ a, outcome throws (f a)) → outcome throws (forEach items f).
Proof.
  intros Hf. induction items as [|x items IH]; [apply outcome_ret|].
  apply outcome_bind; [apply Hf|done].
Qed.

Lemma outcome__exit {A} throws error : outcome throws (@_exit A error).
Proof. by intros w. Qed.

Ltac outcome_step :=
  first
    [ apply outcome_ret | apply outcome__exit | apply outcome_exit
    | apply outcome_emit | apply outcome_cwd | apply outcome_getenv
    | apply outcome_throw | apply outcome_perform | apply outcome_require
    | apply outcome_get_prop | apply outcome_set_prop | apply outcome_removeSync
    | apply outcome_bind; [|intros ?]
    | apply outcome_try_catch; [|intros ?]
    | apply outcome_if ].

Lemma outcome__help appName chalk asciiLogo details :
  outcome false (_help appName chalk asciiLogo details).
Proof. unfold _help, console_log. repeat outcome_step. Qed.

Lemma outcome__env2json chalk vars outputFile :
  outcome false (_env2json chalk vars outputFile).
Proof.
  unfold _env2json, writeFileSync. repeat outcome_step.
  apply outcome_reduce. intros. repeat outcome_step.
Qed.

Lemma outcome_copy_step isWin chalk options :
  outcome false (copy_step isWin chalk options).
Proof.
  unfold copy_step, _copy, or_else, ensureDirSync, execSync, console_log.
  repeat outcome_step; try (destruct a0); repeat outcome_step.
Qed.

Lemma outcome__cordova isWin chalk options :
  outcome false (_cordova isWin chalk options).
Proof.
  intros w. rewrite _cordova_run.
  destruct (_ && _); [apply outcome_copy_step|done].
Qed.

Lemma outcome__unpin chalk : outcome false (_unpinIonicDependencies chalk).
Proof. unfold _unpinIonicDependencies, writeFileSync. repeat outcome_step. Qed.

Lemma outcome__remove chalk path : outcome false (_remove chalk path).
Proof. unfold _remove, console_log. repeat outcome_step. Qed.

Lemma outcome__clean chalk options : outcome true (_clean chalk options).
Proof.
  unfold _clean. repeat outcome_step.
  all: try apply outcome_weaken, outcome__remove.
  destruct a1; repeat outcome_step.
  apply outcome_forEach. intros. repeat outcome_step.
Qed.

(** X1.  Whatever the arguments and the host, [run] ends the process only
    with status 1, and an exception leaves it only from [clean]. *)
Theorem run_ends_with_status_1 isWin appName chalk asciiLogo this w :
  match (run isWin appName chalk asciiLogo this w).1 with
  | Ok _ => True
  | Exit code => code = 1%Z
  | Throw _ => opt_help (_options this) = false ∧ _args this !! 0 = Some "clean"
  end.
Proof.
  unfold run. destruct (opt_help (_options this)) eqn:Hhelp.
  { pose proof (outcome__help appName chalk asciiLogo true w) as H.
    by destruct (_help _ _ _ _ w).1. }
  destruct (_args this !! 0) as [cmd|] eqn:Hcmd.
  2:{ pose proof (outcome__help appName chalk asciiLogo false w) as H.
      by destruct (_help _ _ _ _ w).1. }
  destruct (String.eqb cmd "env2json").
  { pose proof (outcome__env2json chalk (drop 1 (positional (_options this)))
                  (opt_o (_options this)) w) as H.
    by destruct (_env2json _ _ _ w).1. }
  destruct (String.eqb cmd "cordova").
  { pose proof (outcome__cordova isWin chalk (_options this) w) as H.
    by destruct (_cordova _ _ _ w).1. }
  destruct (String.eqb_spec cmd "clean") as [->|_].
  { pose proof (outcome__clean chalk (_options this) w) as H.
    by destruct (_clean _ _ w).1. }
  destruct (String.eqb cmd "unpin-ionic-dependencies").
  { pose proof (outcome__unpin chalk w) as H.
    by destruct (_unpinIonicDependencies _ w).1. }
  pose proof (outcome__help appName chalk asciiLogo false w) as H.
  by destruct (_help _ _ _ _ w).1.
Qed.

(** X2.  [--help], an unknown command, or no command at all: [run] logs the
    banner, prints the usage on the error stream (the long one only for
    [--help]) and ends the process with status 1, making no other call. *)
Theorem run_prints_help isWin appName chalk asciiLogo this w :
  opt_help (_options this) = true
  ∨ (∀ cmd, _args this !! 0 = Some cmd → cmd ∉ commands) →
  run isWin appName chalk asciiLogo this w
  = (Exit 1%Z,
     record (ConsoleError
               (help appName chalk
                +:+ (if opt_help (_options this) then detailedHelp chalk
                     else "Use " +:+ chalk white "--help" +:+ " for more info." +:+ nl)))
       (record (ConsoleLog asciiLogo) w)).
Proof.
  intros [Hhelp|Hcmd]; unfold run.
  - by rewrite Hhelp.
  - destruct (opt_help (_options this)); [done|].
    destruct (_args this !! 0) as [cmd|]; [|done].
    specialize (Hcmd cmd eq_refl). unfold commands in Hcmd.
    rewrite !not_elem_of_cons in Hcmd. destruct Hcmd as (H1 & H2 & H3 & H4 & _).
    apply String.eqb_neq in H1, H2, H3, H4. by rewrite H1, H2, H3, H4.
Qed.

Lemma run_prints_help_witness :
  run false "ngx-scripts" plain "logo"
    (Instance_ ["build"; "--dev"] (Options ["build"] false false true false false
       false false false false false None None None None)) (world0 ∅ ∅)
  = (Exit 1%Z,
     record (ConsoleError
               (help "ngx-scripts" plain
                +:+ "Use " +:+ plain white "--help" +:+ " for more info." +:+ nl))
       (record (ConsoleLog "logo") (world0 ∅ ∅))).
Proof.
  apply (run_prints_help false "ngx-scripts" plain "logo"
    (Instance_ ["build"; "--dev"] (Options ["build"] false false true false false
       false false false false false None None None None)) (world0 ∅ ∅)).
  right. intros cmd [= <-]. unfold commands.
  rewrite !not_elem_of_cons. split_and!; [discriminate..|apply not_elem_of_nil].
Defined.

(** ** More on [_env2json] *)

Lemma errors_app t1 t2 : errors (t1 ++ t2) = errors t1 ++ errors t2.
Proof. apply omap_app. Qed.

Lemma writes_app t1 t2 : writes (t1 ++ t2) = writes t1 ++ writes t2.
Proof. apply omap_app. Qed.

Lemma execs_app t1 t2 : execs (t1 ++ t2) = execs t1 ++ execs t2.
Proof. apply omap_app. Qed.

(** With at least one name, [_env2json] is the write of the snapshot and its
    handler. *)
Lemma env2json_unfold chalk vars outputFile w :
  vars ≠ [] →
  ∃ text,
    stringify (VObj (snapshot w vars [])) = Some text
    ∧ _env2json chalk vars outputFile w
      = try_catch (writeFileSync (output_path outputFile) text)
          (λ err, _exit (chalk red ("Error writing file: " +:+ err))) w.
Proof.
  intros Hvars. unfold stringify. rewrite ser_VObj. eexists. split; [done|].
  unfold _env2json. rewrite bool_decide_eq_false_2 by by destruct vars.
  rewrite bind_ret_l, bind_run, reduce_snapshot.
  unfold stringify. by rewrite ser_VObj.
Qed.

(** X3.  When the host refuses the write, [_env2json] prints
    [Error writing file:] with the host's message and ends the process with
    status 1; no file has changed. *)
Theorem env2json_write_refused chalk vars outputFile w msg :
  vars ≠ [] →
  (∀ data, refuses w (WriteFile (output_path outputFile) data) = Some msg) →
  let r := _env2json chalk vars outputFile w in
  r.1 = Exit 1%Z
  ∧ errors (trace r.2)
    = errors (trace w) ++ [chalk red ("Error writing file: " +:+ msg)]
  ∧ files r.2 = files w.
Proof.
  intros Hvars Hwrite r. unfold r.
  destruct (env2json_unfold chalk vars outputFile w Hvars) as (text & _ & ->).
  unfold try_catch, writeFileSync. rewrite (perform_refused _ _ _ msg) by done.
  split_and!; [done| |done]. simpl. by rewrite !errors_app, app_nil_r.
Qed.

Lemma env2json_write_refused_witness :
  let r := _env2json plain ["HOME"] (Some "/etc/env.json")
             (world_denied {["HOME" := "/root"]} ∅) in
  r.1 = Exit 1%Z
  ∧ errors (trace r.2) = [] ++ ["Error writing file: EACCES: permission denied"]
  ∧ files r.2 = ∅.
Proof.
  apply (env2json_write_refused plain ["HOME"] (Some "/etc/env.json")
           (world_denied {["HOME" := "/root"]} ∅) "EACCES: permission denied");
    [discriminate|reflexivity].
Defined.

(** X4.  Whatever the names and the host, [_env2json] changes at most the
    file at the output path: the files are as before, or as before with that
    one file set.  It creates no directory, removes nothing and starts no
    program. *)
Theorem env2json_touches_only_output chalk vars outputFile w :
  let r := _env2json chalk vars outputFile w in
  (files r.2 = files w
   ∨ ∃ text, files r.2 = <[resolve w (output_path outputFile) := text]> (files w))
  ∧ dirs r.2 = dirs w
  ∧ removals (trace r.2) = removals (trace w)
  ∧ spawns (trace r.2) = spawns (trace w)
  ∧ execs (trace r.2) = execs (trace w).
Proof.
  intros r. unfold r. destruct vars as [|v vars].
  { split_and!; [by left|done|..]; simpl;
      by rewrite ?removals_app, ?spawns_app, ?execs_app, app_nil_r. }
  destruct (env2json_unfold chalk (v :: vars) outputFile w) as (text & _ & ->);
    [done|].
  unfold try_catch, writeFileSync, perform.
  destruct (refuses w _) as [msg|]; simpl.
  - split_and!; [by left|done|..];
      by rewrite ?removals_app, ?spawns_app, ?execs_app, ?app_nil_r.
  - split_and!; [right; by eexists|done|..];
      by rewrite ?removals_app, ?spawns_app, ?execs_app, ?app_nil_r.
Qed.

Lemma obj_define_same props k v :
  obj_get props k = Some v → obj_define props k v = props.
Proof.
  induction props as [|[k0 v0] props IH]; [done|]. simpl.
  destruct (String.eqb_spec k0 k) as [->|_]; [by intros [= ->]|].
  intros H. by rewrite IH.
Qed.

Lemma snapshot_app w vars1 vars2 init :
  snapshot w (vars1 ++ vars2) init = snapshot w vars2 (snapshot w vars1 init).
Proof. apply fold_left_app. Qed.

Lemma snapshot_repeat w vars v :
  v ∈ vars → snapshot w (vars ++ [v]) [] = snapshot w vars [].
Proof.
  intros Hin. rewrite snapshot_app. cbn [snapshot fold_left].
  unfold obj_assign. destruct (String.eqb v "__proto__") eqn:Hproto; [done|].
  apply obj_define_same. rewrite snapshot_get, Hproto.
  by rewrite bool_decide_eq_true_2.
Qed.

(** X5.  Asking again for a name that was already asked for changes nothing:
    the run is the same, call for call. *)
Theorem env2json_repeated_name chalk vars v outputFile w :
  v ∈ vars →
  _env2json chalk (vars ++ [v]) outputFile w = _env2json chalk vars outputFile w.
Proof.
  intros Hin.
  destruct (env2json_unfold chalk (vars ++ [v]) outputFile w) as (t1 & H1 & ->).
  { by destruct vars. }
  destruct (env2json_unfold chalk vars outputFile w) as (t2 & H2 & ->).
  { intros ->. by apply elem_of_nil in Hin. }
  rewrite snapshot_repeat in H1 by done. by simplify_eq.
Qed.

Lemma env2json_repeated_name_witness :
  _env2json plain (["HOME"; "CI"] ++ ["HOME"]) None (world0 {["HOME" := "/root"]} ∅)
  = _env2json plain ["HOME"; "CI"] None (world0 {["HOME" := "/root"]} ∅).
Proof.
  apply (env2json_repeated_name plain ["HOME"; "CI"] "HOME" None
           (world0 {["HOME" := "/root"]} ∅)).
  left.
Defined.

(** ** More on [_cordova] *)

(** X6.  Without [--fast], [_cordova] starts the build first, with [yarn] or
    [npm run] and the build arguments, and then [cordova]; it starts nothing
    else, and goes on to [cordova] whatever became of the build. *)
Theorem cordova_builds_then_packages isWin chalk options w :
  opt_fast options = false →
  spawns (trace (_cordova isWin chalk options w).2)
  = spawns (trace w)
    ++ [(if opt_yarn options then "yarn" else "npm run", buildOptions options);
        ("cordova", cordovaOptions options)].
Proof.
  intros Hfast. rewrite _cordova_run, Hfast.
  set (w1 := record (SpawnSync "cordova" _) _).
  assert (spawns (trace w1)
          = spawns (trace w)
            ++ [(if opt_yarn options then "yarn" else "npm run", buildOptions options);
                ("cordova", cordovaOptions options)]) as <-.
  { unfold w1. simpl. by rewrite !spawns_app, <- app_assoc. }
  destruct (bool_decide _ && truthy _); [|done].
  destruct (copy_step_no_spawn isWin chalk options w1) as (t & -> & Hall).
  rewrite spawns_app, (spawns_none t Hall). apply app_nil_r.
Qed.

Lemma cordova_builds_then_packages_witness :
  spawns (trace (_cordova false plain
    (Options ["cordova"; "build"; "ios"] false false true false false false
             true true false false None None (Some "staging") None) (world0 ∅ ∅)).2)
  = [("yarn", ["build"; "--"; "--dev"; "--env"; "staging"]);
     ("cordova", ["build"; "ios"; "--no-telemetry"; "--release"])].
Proof.
  apply (cordova_builds_then_packages false plain
    (Options ["cordova"; "build"; "ios"] false false true false false false
             true true false false None None (Some "staging") None) (world0 ∅ ∅)).
  reflexivity.
Defined.

(** The world [_cordova] enters the copy step in. *)
Lemma cordova_enters_copy_step isWin chalk options w dest :
  positional options !! 0 = Some "build" →
  opt_copy options = Some dest → dest ≠ "" →
  ∃ w1,
    _cordova isWin chalk options w = copy_step isWin chalk options w1
    ∧ refuses w1 = refuses w
    ∧ process_cwd w1 = process_cwd w
    ∧ dirs w1 = dirs w
    ∧ errors (trace w1) = errors (trace w)
    ∧ logs (trace w1) = logs (trace w)
    ∧ execs (trace w1) = execs (trace w).
Proof.
  intros Hpos Hcopy Hdest. rewrite _cordova_run.
  assert (truthy (opt_copy options) = true) as ->
    by (rewrite Hcopy; simpl; by destruct (String.eqb_spec dest "")).
  rewrite bool_decide_eq_true_2 by done. change (true && true) with true. cbv iota.
  eexists. split; [done|].
  destruct (opt_fast options); simpl;
    rewrite ?errors_app, ?logs_app, ?execs_app, ?app_nil_r; done.
Qed.

Lemma copy_step_dir_refused isWin chalk options w dest msg :
  opt_copy options = Some dest →
  refuses w (EnsureDir dest) = Some msg →
  copy_step isWin chalk options w
  = (Exit 1%Z,
     record (ConsoleError (chalk red ("Error during apps copy: " +:+ msg)))
       (record (EnsureDir dest) w)).
Proof.
  intros Hcopy Hdir.
  unfold copy_step. rewrite Hcopy. change (get (Some dest)) with dest.
  unfold try_catch at 1. rewrite bind_run. unfold ensureDirSync.
  by rewrite (perform_refused _ _ _ msg).
Qed.

Lemma copy_step_ios isWin chalk options w dest msg :
  opt_copy options = Some dest →
  refuses w (EnsureDir dest) = None →
  refuses w (ExecSync (copy_command isWin (androidPath options) dest)) = Some msg →
  refuses w (ExecSync (copy_command isWin iosPath dest)) = None →
  copy_step isWin chalk options w
  = (Ok (),
     record (ConsoleLog ("Apps copied to " +:+ chalk cyan dest +:+ " folder"))
       (record (ExecSync (copy_command isWin iosPath dest))
          (record (ExecSync (copy_command isWin (androidPath options) dest))
             (with_dirs ({[resolve w dest]} ∪ dirs w) (record (EnsureDir dest) w))))).
Proof.
  intros Hcopy Hdir Handroid Hios.
  unfold copy_step. rewrite Hcopy. change (get (Some dest)) with dest.
  unfold try_catch at 1. rewrite bind_run. unfold ensureDirSync.
  rewrite perform_ok by done.
  rewrite bind_run. unfold or_else at 1, _copy at 1, try_catch at 1.
  rewrite bind_run. unfold execSync at 1.
  rewrite (perform_refused _ _ _ msg) by done. unfold mret at 1, M_ret at 1.
  rewrite bind_run. unfold or_else at 1, _copy at 1, try_catch at 1.
  rewrite bind_run. unfold execSync at 1.
  by rewrite perform_ok.
Qed.

(** X7.  When the destination cannot be created, [_cordova] prints
    [Error during apps copy:] with the host's message and ends the process
    with status 1, without having run any copy command. *)
Theorem cordova_copy_dir_refused isWin chalk options w dest msg :
  positional options !! 0 = Some "build" →
  opt_copy options = Some dest → dest ≠ "" →
  refuses w (EnsureDir dest) = Some msg →
  let r := _cordova isWin chalk options w in
  r.1 = Exit 1%Z
  ∧ errors (trace r.2)
    = errors (trace w) ++ [chalk red ("Error during apps copy: " +:+ msg)]
  ∧ execs (trace r.2) = execs (trace w)
  ∧ dirs r.2 = dirs w.
Proof.
  intros Hpos Hcopy Hdest Hdir r. unfold r.
  destruct (cordova_enters_copy_step isWin chalk options w dest)
    as (w1 & -> & Hr & _ & Hd & He & _ & Hx); [done..|].
  rewrite (copy_step_dir_refused isWin chalk options w1 dest msg)
    by (by rewrite ?Hr).
  cbn -[errors execs]. rewrite !errors_app, !execs_app, He, Hx.
  by rewrite !app_nil_r.
Qed.

Lemma cordova_copy_dir_refused_witness :
  let r := _cordova false plain
             (Options ["build"] false true false false false false false false
                      false false None (Some "out") None None)
             (world_denied ∅ ∅) in
  r.1 = Exit 1%Z
  ∧ errors (trace r.2)
    = [] ++ ["Error during apps copy: EACCES: permission denied"]
  ∧ execs (trace r.2) = []
  ∧ dirs r.2 = ∅.
Proof.
  apply (cordova_copy_dir_refused false plain
           (Options ["build"] false true false false false false false false
                    false false None (Some "out") None None)
           (world_denied ∅ ∅) "out" "EACCES: permission denied");
    [reflexivity|reflexivity|discriminate|reflexivity].
Defined.

(** X8.  When the copy of the Android artifacts fails and that of the iOS
    ones succeeds, [_cordova] has run both commands, in that order, logs the
    copy and returns. *)
Theorem cordova_copy_falls_back_to_ios isWin chalk options w dest msg :
  positional options !! 0 = Some "build" →
  opt_copy options = Some dest → dest ≠ "" →
  refuses w (EnsureDir dest) = None →
  refuses w (ExecSync (copy_command isWin (androidPath options) dest)) = Some msg →
  refuses w (ExecSync (copy_command isWin iosPath dest)) = None →
  let r := _cordova isWin chalk options w in
  r.1 = Ok ()
  ∧ execs (trace r.2)
    = execs (trace w)
      ++ [copy_command isWin (androidPath options) dest;
          copy_command isWin iosPath dest]
  ∧ logs (trace r.2)
    = logs (trace w) ++ ["Apps copied to " +:+ chalk cyan dest +:+ " folder"]
  ∧ errors (trace r.2) = errors (trace w).
Proof.
  intros Hpos Hcopy Hdest Hdir Handroid Hios r. unfold r.
  destruct (cordova_enters_copy_step isWin chalk options w dest)
    as (w1 & -> & Hr & _ & _ & He & Hl & Hx); [done..|].
  rewrite (copy_step_ios isWin chalk options w1 dest msg) by (by rewrite ?Hr).
  cbn -[errors execs logs]. rewrite !errors_app, !execs_app, !logs_app, He, Hl, Hx.
  by rewrite !app_nil_r, <- !app_assoc.
Qed.

Lemma cordova_copy_falls_back_to_ios_witness :
  let options := Options ["build"] false true false false false false false false
                         false false None (Some "out") None None in
  let w := World ∅ "/app" ∅ ∅
             (λ e, match e with
                   | ExecSync c =>
                       if String.eqb c (copy_command false iosPath "out")
                       then None else Some "Command failed"
                   | _ => None
                   end) [] in
  let r := _cordova false plain options w in
  r.1 = Ok ()
  ∧ execs (trace r.2)
    = [] ++ ["cp -Rf platforms/android/build/outputs/apk/*-debug.apk out";
             "cp -Rf platforms/ios/build/device/*.ipa out"]
  ∧ logs (trace r.2) = [] ++ ["Apps copied to out folder"]
  ∧ errors (trace r.2) = [].
Proof.
  apply (cordova_copy_falls_back_to_ios false plain
           (Options ["build"] false true false false false false false false
                    false false None (Some "out") None None)
           (World ∅ "/app" ∅ ∅
              (λ e, match e with
                    | ExecSync c =>
                        if String.eqb c (copy_command false iosPath "out")
                        then None else Some "Command failed"
                    | _ => None
                    end) [])
           "out" "Command failed");
    [reflexivity|reflexivity|discriminate|reflexivity..].
Defined.

Lemma cordova_no_builds_found_witness :
  let options := Options ["build"] false true false false false false false false
                         false false None (Some "out") None None in
  let w := World ∅ "/app" ∅ ∅
             (λ e, match e with ExecSync _ => Some "Command failed" | _ => None end)
             [] in
  let r := _cordova false plain options w in
  r.1 = Exit 1%Z
  ∧ errors (trace r.2) = [] ++ ["Error during apps copy: No app builds found"]
  ∧ resolve w "out" ∈ dirs r.2.
Proof.
  apply (cordova_no_builds_found false plain
           (Options ["build"] false true false false false false false false
                    false false None (Some "out") None None)
           (World ∅ "/app" ∅ ∅
              (λ e, match e with ExecSync _ => Some "Command failed" | _ => None end)
              []) "out");
    [reflexivity|reflexivity|discriminate|reflexivity|].
  intros c. eexists. reflexivity.
Defined.

(** X10.  Once the copy of the Android artifacts has succeeded, [_cordova]
    logs the copy and returns: the only copy command it has run is that one,
    whatever the host would have answered to the other. *)
Theorem cordova_copy_android_only isWin chalk options w dest :
  positional options !! 0 = Some "build" →
  opt_copy options = Some dest → dest ≠ "" →
  refuses w (EnsureDir dest) = None →
  refuses w (ExecSync (copy_command isWin (androidPath options) dest)) = None →
  let r := _cordova isWin chalk options w in
  r.1 = Ok ()
  ∧ execs (trace r.2)
    = execs (trace w) ++ [copy_command isWin (androidPath options) dest]
  ∧ logs (trace r.2)
    = logs (trace w) ++ ["Apps copied to " +:+ chalk cyan dest +:+ " folder"]
  ∧ resolve w dest ∈ dirs r.2.
Proof.
  intros Hpos Hcopy Hdest Hdir Handroid r. unfold r.
  destruct (cordova_enters_copy_step isWin chalk options w dest)
    as (w1 & -> & Hr & Hc & _ & _ & Hl & Hx); [done..|].
  rewrite (copy_step_stops_after_android isWin chalk options w1 dest)
    by (by rewrite ?Hr).
  cbn -[execs logs]. rewrite !execs_app, !logs_app, Hl, Hx.
  rewrite !app_nil_r. split_and!; [done..|].
  rewrite (resolve_cwd w w1) by done. set_solver.
Qed.

Lemma cordova_copy_android_only_witness :
  let options := Options ["build"] false true false false false false true false
                         false false None (Some "out") None None in
  let r := _cordova true plain options (world0 ∅ ∅) in
  r.1 = Ok ()
  ∧ execs (trace r.2)
    = [] ++ ["xcopy /S /Y platforms/android/build/outputs/apk/*-release.apk out"]
  ∧ logs (trace r.2) = [] ++ ["Apps copied to out folder"]
  ∧ "/app/out" ∈ dirs r.2.
Proof.
  apply (cordova_copy_android_only true plain
           (Options ["build"] false true false false false false true false
                    false false None (Some "out") None None)
           (world0 ∅ ∅) "out");
    [reflexivity|reflexivity|discriminate|reflexivity..].
Defined.

Lemma run_cordova_skips_copy_witness :
  let this := Instance_ ["cordova"; "build"; "--copy"; "out"]
                (Options ["cordova"; "build"] false false false false false false
                         false false false false None (Some "out") None None) in
  run false "ngx-scripts" plain "logo" this (world0 ∅ ∅)
  = (Ok (),
     record (SpawnSync "cordova" ["build"; "--no-telemetry"])
       (record (SpawnSync "npm run" ["build"; "--"]) (world0 ∅ ∅))).
Proof.
  apply (run_cordova_skips_copy false "ngx-scripts" plain "logo"
           (Instance_ ["cordova"; "build"; "--copy"; "out"]
              (Options ["cordova"; "build"] false false false false false false
                       false false false false None (Some "out") None None))
           (world0 ∅ ∅)); [reflexivity..|].
  intros cmd [= <-] _. reflexivity.
Defined.

(** ** More on [_clean] *)

Lemma clean_unfold chalk options : _clean chalk options = clean_steps chalk options.
Proof.
  unfold _clean, clean_steps, scope_cordova, scope_dist, no_scope.
  by destruct (opt_cordova options), (opt_dist options), (truthy (opt_path options)).
Qed.

Lemma require_config w :
  absolute (process_cwd w) = true →
  require (path_join (process_cwd w) ".angular-cli.json") w
  = match read_config w with
    | Some config => (Ok config, w)
    | None =>
        (Throw (match files w !! config_path w with
                | None => "Cannot find module '" +:+ config_path w +:+ "'"
                | Some _ => config_path w +:+ ": Unexpected token in JSON"
                end), w)
    end.
Proof.
  intros Habs. unfold require, resolve, read_config, config_path.
  rewrite absolute_join by done.
  destruct (files w !! _) as [text|]; [|done]. simpl. by destruct (parse text).
Qed.

Lemma read_config_removed chalk w p :
  absolute (process_cwd w) = true →
  p = "platforms" ∨ p = "plugins" →
  read_config (removed chalk w p) = read_config w.
Proof.
  intros Habs Hp. unfold read_config.
  change (config_path (removed chalk w p)) with (config_path w).
  rewrite files_removed. unfold config_path. by rewrite config_not_under.
Qed.

Lemma dist_step_ok chalk w config dirs :
  absolute (process_cwd w) = true →
  read_config w = Some config →
  outDirs config = Some dirs →
  (∀ p, refuses w (RemovePath p) = None) →
  dist_step chalk w = (Ok (), foldl (removed chalk) w dirs).
Proof.
  intros Habs Hread Hdirs Hok. unfold dist_step.
  rewrite bind_run. unfold try_catch at 1. rewrite bind_run. unfold cwd at 1.
  rewrite require_config, Hread by done.
  destruct config as [| | | | | |props]; try done. simpl in Hdirs.
  destruct (obj_get props "apps") as [[| | | | |apps|]|] eqn:Happs; try done.
  change (get_prop (VObj props) "apps")
    with (mret (M := M) (default VUndefined (obj_get props "apps"))).
  rewrite Happs, bind_ret_l.
  change (default VUndefined (Some (VArr apps))) with (VArr apps). cbv beta iota.
  by apply forEach_remove.
Qed.


Lemma dist_step_no_apps chalk w props :
  absolute (process_cwd w) = true →
  read_config w = Some (VObj props) →
  obj_get props "apps" = None →
  dist_step chalk w = (Throw "Cannot read property 'forEach' of undefined", w).
Proof.
  intros Habs Hread Happs. unfold dist_step.
  rewrite bind_run. unfold try_catch at 1. rewrite bind_run. unfold cwd at 1.
  rewrite require_config, Hread by done.
  change (get_prop (VObj props) "apps")
    with (mret (M := M) (default VUndefined (obj_get props "apps"))).
  by rewrite Happs, bind_ret_l.
Qed.

(** The first block of [_clean] when the host lets both removals go. *)
Lemma cordova_step_ok chalk (b : bool) w :
  (∀ p, refuses w (RemovePath p) = None) →
  (if b then _ ← _remove chalk (VStr "platforms"); _remove chalk (VStr "plugins")
   else mret ()) w
  = (Ok (), foldl (removed chalk) w (if b then ["platforms"; "plugins"] else [])).
Proof.
  intros Hok. destruct b; [|done].
  rewrite bind_run, _remove_ok by done. by rewrite _remove_ok by apply Hok.
Qed.

Lemma read_config_cordova_step chalk (b : bool) w :
  absolute (process_cwd w) = true →
  read_config (foldl (removed chalk) w (if b then ["platforms"; "plugins"] else []))
  = read_config w.
Proof.
  intros Habs. destruct b; [|done]. simpl.
  rewrite !read_config_removed; auto.
Qed.

(** X11.  When no removal fails, [_clean] returns, and what it removes is,
    in this order: [platforms] and [plugins] if that scope is on, each
    [outDir] of the build configuration if that scope is on, and the explicit
    path if one is given.  Every removal but that of the explicit path is
    logged.  The build configuration is read only for the second scope. *)
Theorem clean_scopes_in_order chalk options w dirs :
  absolute (process_cwd w) = true →
  (∀ p, refuses w (RemovePath p) = None) →
  (if scope_dist options
   then ∃ config, read_config w = Some config ∧ outDirs config = Some dirs
   else dirs = []) →
  let r := _clean chalk options w in
  r.1 = Ok ()
  ∧ removals (trace r.2)
    = removals (trace w) ++ clean_targets options dirs
      ++ (if truthy (opt_path options) then [get (opt_path options)] else [])
  ∧ logs (trace r.2)
    = logs (trace w)
      ++ ((λ p, "Removed " +:+ chalk yellow p) <$> clean_targets options dirs).
Proof.
  intros Habs Hok Hdist r. unfold r. rewrite clean_unfold. unfold clean_steps.
  rewrite bind_run, cordova_step_ok by done.
  set (w1 := foldl (removed chalk) w _).
  assert (∀ p, refuses w1 (RemovePath p) = None) as Hok1
    by (intros p; unfold w1; by rewrite foldl_removed_refuses).
  assert (absolute (process_cwd w1) = true) as Habs1
    by (unfold w1; by rewrite foldl_removed_cwd).
  assert ((if scope_dist options then dist_step chalk else mret ()) w1
          = (Ok (), foldl (removed chalk) w1 dirs)) as Hstep.
  { destruct (scope_dist options).
    - destruct Hdist as (config & Hread & Hdirs).
      apply (dist_step_ok chalk w1 config); [done| |done..].
      unfold w1. by rewrite read_config_cordova_step.
    - by subst dirs. }
  rewrite bind_run, Hstep.
  assert (foldl (removed chalk) w1 dirs
          = foldl (removed chalk) w (clean_targets options dirs)) as ->
    by (unfold w1, clean_targets; by rewrite foldl_app).
  set (w2 := foldl (removed chalk) w _).
  pose proof (foldl_removed_removals chalk (clean_targets options dirs) w) as Hrem.
  pose proof (foldl_removed_logs chalk (clean_targets options dirs) w) as Hlog.
  fold w2 in Hrem, Hlog.
  destruct (truthy (opt_path options)).
  - unfold removeSync.
    rewrite perform_ok by (unfold w2; by rewrite foldl_removed_refuses).
    cbn -[removals logs]. rewrite removals_app, logs_app, Hrem, Hlog.
    by rewrite app_nil_r, <- app_assoc.
  - cbn -[removals logs]. by rewrite Hrem, Hlog, !app_nil_r.
Qed.

Lemma clean_scopes_in_order_witness :
  let options := Options ["clean"] false false false false false false false false
                         true false None None None (Some "tmp") in
  let r := _clean plain options (world0 ∅ ∅) in
  r.1 = Ok ()
  ∧ removals (trace r.2) = [] ++ ["platforms"; "plugins"] ++ ["tmp"]
  ∧ logs (trace r.2) = [] ++ ["Removed platforms"; "Removed plugins"].
Proof.
  apply (clean_scopes_in_order plain
           (Options ["clean"] false false false false false false false false
                    true false None None None (Some "tmp"))
           (world0 ∅ ∅) []); reflexivity.
Defined.

Lemma foldl_removed_errors chalk ps : ∀ w,
  errors (trace (foldl (removed chalk) w ps)) = errors (trace w).
Proof.
  induction ps as [|q ps IH]; intros w; [done|]. simpl.
  rewrite IH, removed_trace, errors_app. apply app_nil_r.
Qed.

(** The world [_remove] leaves when the host refuses the removal. *)
Lemma refused_trace chalk w pre p (e : string) :
  let w' := record (ConsoleError e) (record (RemovePath p) (foldl (removed chalk) w pre)) in
  removals (trace w') = removals (trace w) ++ pre ++ [p]
  ∧ errors (trace w') = errors (trace w) ++ [e]
  ∧ logs (trace w')
    = logs (trace w) ++ ((λ p, "Removed " +:+ chalk yellow p) <$> pre).
Proof.
  cbn -[removals errors logs].
  rewrite !removals_app, !errors_app, !logs_app.
  rewrite foldl_removed_removals, foldl_removed_logs, foldl_removed_errors.
  by rewrite !app_nil_r, <- !app_assoc.
Qed.

Lemma forEach_remove_refused chalk pre : ∀ apps p post w msg,
  mapM (λ app,
          match app with
          | VObj fields =>
              match obj_get fields "outDir" with
              | Some (VStr dir) => Some dir
              | _ => None
              end
          | _ => None
          end) apps = Some (pre ++ p :: post) →
  (∀ q, q ∈ pre → refuses w (RemovePath q) = None) →
  refuses w (RemovePath p) = Some msg →
  forEach apps (λ app, outDir ← get_prop app "outDir"; _remove chalk outDir) w
  = (Exit 1%Z,
     record (ConsoleError (chalk red ("Error while removing " +:+ p +:+ ": " +:+ msg)))
       (record (RemovePath p) (foldl (removed chalk) w pre))).
Proof.
  induction pre as [|q pre IH]; intros apps p post w msg Hdirs%mapM_Some Hpre Hp;
    inversion Hdirs as [|app ? apps' ? Happ Hrest]; subst;
    (destruct app as [| | | | | |fields]; try done);
    (destruct (obj_get fields "outDir") as [[| | | |dir'| |]|] eqn:Hget; try done);
    simplify_eq; cbn [forEach]; rewrite bind_run;
    change (get_prop (VObj fields) "outDir")
      with (mret (M := M) (default VUndefined (obj_get fields "outDir")));
    rewrite Hget, bind_ret_l;
    change (default VUndefined (Some (VStr ?d))) with (VStr d).
  - by rewrite (_remove_refused _ _ _ msg).
  - rewrite _remove_ok by (apply Hpre; left).
    apply (IH apps' p post); [by apply mapM_Some| |done].
    intros q' Hq'. rewrite removed_refuses. apply Hpre. by right.
Qed.

Lemma dist_step_refused chalk w config pre p post msg :
  absolute (process_cwd w) = true →
  read_config w = Some config →
  outDirs config = Some (pre ++ p :: post) →
  (∀ q, q ∈ pre → refuses w (RemovePath q) = None) →
  refuses w (RemovePath p) = Some msg →
  dist_step chalk w
  = (Exit 1%Z,
     record (ConsoleError (chalk red ("Error while removing " +:+ p +:+ ": " +:+ msg)))
       (record (RemovePath p) (foldl (removed chalk) w pre))).
Proof.
  intros Habs Hread Hdirs Hpre Hp. unfold dist_step.
  rewrite bind_run. unfold try_catch at 1. rewrite bind_run. unfold cwd at 1.
  rewrite require_config, Hread by done.
  destruct config as [| | | | | |props]; try done. simpl in Hdirs.
  destruct (obj_get props "apps") as [[| | | | |apps|]|] eqn:Happs; try done.
  change (get_prop (VObj props) "apps")
    with (mret (M := M) (default VUndefined (obj_get props "apps"))).
  rewrite Happs, bind_ret_l.
  change (default VUndefined (Some (VArr apps))) with (VArr apps). cbv beta iota.
  by apply (forEach_remove_refused chalk pre apps p post).
Qed.

(** What [_clean] does up to the removal the host refuses. *)
Lemma clean_refused_run chalk options w dirs pre p post msg :
  absolute (process_cwd w) = true →
  (if scope_dist options
   then ∃ config, read_config w = Some config ∧ outDirs config = Some dirs
   else dirs = []) →
  clean_targets options dirs = pre ++ p :: post →
  (∀ q, q ∈ pre → refuses w (RemovePath q) = None) →
  refuses w (RemovePath p) = Some msg →
  _clean chalk options w
  = (Exit 1%Z,
     record (ConsoleError (chalk red ("Error while removing " +:+ p +:+ ": " +:+ msg)))
       (record (RemovePath p) (foldl (removed chalk) w pre))).
Proof.
  intros Habs Hdist Htargets Hpre Hp. rewrite clean_unfold. unfold clean_steps.
  unfold clean_targets in Htargets.
  destruct (scope_cordova options).
  - rewrite bind_run. destruct pre as [|x pre]; simpl in Htargets.
    { injection Htargets as <- _. by rewrite bind_run, (_remove_refused _ _ _ msg). }
    injection Htargets as <- Htargets.
    rewrite bind_run, _remove_ok by (apply Hpre; left).
    destruct pre as [|y pre]; simpl in Htargets.
    { injection Htargets as <- _. by rewrite (_remove_refused _ _ _ msg). }
    injection Htargets as <- Htargets.
    rewrite _remove_ok by (apply Hpre; right; left).
    destruct (scope_dist options);
      [|rewrite Hdist in Htargets; by destruct pre].
    destruct Hdist as (config & Hread & Hdirs). subst dirs. rewrite bind_run.
    rewrite (dist_step_refused chalk _ config pre p post msg); try done.
    + by rewrite !read_config_removed by auto.
    + intros q Hq. apply Hpre. by do 2 right.
  - simpl in Htargets. subst dirs. rewrite bind_ret_l.
    destruct (scope_dist options); [|by destruct pre].
    destruct Hdist as (config & Hread & Hdirs). rewrite bind_run.
    by rewrite (dist_step_refused chalk _ config pre p post msg).
Qed.

(** X12.  The first removal the host refuses, among [platforms], [plugins]
    and the [outDir] directories, stops [_clean]: it prints
    [Error while removing] with the path and the host's message and ends the
    process with status 1.  The removals before it were made and logged, the
    ones after it, the explicit path included, are not attempted. *)
Theorem clean_stops_at_refused_removal chalk options w dirs pre p post msg :
  absolute (process_cwd w) = true →
  (if scope_dist options
   then ∃ config, read_config w = Some config ∧ outDirs config = Some dirs
   else dirs = []) →
  clean_targets options dirs = pre ++ p :: post →
  (∀ q, q ∈ pre → refuses w (RemovePath q) = None) →
  refuses w (RemovePath p) = Some msg →
  let r := _clean chalk options w in
  r.1 = Exit 1%Z
  ∧ removals (trace r.2) = removals (trace w) ++ pre ++ [p]
  ∧ errors (trace r.2)
    = errors (trace w)
      ++ [chalk red ("Error while removing " +:+ p +:+ ": " +:+ msg)]
  ∧ logs (trace r.2)
    = logs (trace w) ++ ((λ p, "Removed " +:+ chalk yellow p) <$> pre).
Proof.
  intros Habs Hdist Htargets Hpre Hp r. unfold r.
  rewrite (clean_refused_run chalk options w dirs pre p post msg) by done.
  split; [done|]. apply refused_trace.
Qed.

Lemma clean_stops_at_refused_removal_witness :
  let options := Options ["clean"] false false false false false false false false
                         false false None None None None in
  let w := World ∅ "/app" {["/app/.angular-cli.json" := config_text]} ∅
             (λ e, match e with
                   | RemovePath p =>
                       if String.eqb p "plugins" then Some "EBUSY" else None
                   | _ => None
                   end) [] in
  let r := _clean plain options w in
  r.1 = Exit 1%Z
  ∧ removals (trace r.2) = [] ++ ["platforms"] ++ ["plugins"]
  ∧ errors (trace r.2) = [] ++ ["Error while removing plugins: EBUSY"]
  ∧ logs (trace r.2) = [] ++ ["Removed platforms"].
Proof.
  apply (clean_stops_at_refused_removal plain
           (Options ["clean"] false false false false false false false false
                    false false None None None None)
           (World ∅ "/app" {["/app/.angular-cli.json" := config_text]} ∅
              (λ e, match e with
                    | RemovePath p =>
                        if String.eqb p "plugins" then Some "EBUSY" else None
                    | _ => None
                    end) [])
           ["dist"] ["platforms"] "plugins" ["dist"] "EBUSY").
  - reflexivity.
  - eexists. split; reflexivity.
  - reflexivity.
  - intros q Hq. apply list_elem_of_singleton in Hq as ->. reflexivity.
  - reflexivity.
Defined.



(** X14.  When the build configuration is an object without [apps], the
    [TypeError] of [angularCliConfig.apps.forEach] is caught by nothing: it
    leaves [_clean], which prints no error of its own and does not end the
    process. *)
Theorem clean_config_without_apps chalk options w props :
  absolute (process_cwd w) = true →
  (∀ p, refuses w (RemovePath p) = None) →
  scope_dist options = true →
  read_config w = Some (VObj props) →
  obj_get props "apps" = None →
  let r := _clean chalk options w in
  (∃ msg, r.1 = Throw msg)
  ∧ removals (trace r.2) = removals (trace w) ++ clean_targets options []
  ∧ errors (trace r.2) = errors (trace w).
Proof.
  intros Habs Hok Hdist Hread Happs r. unfold r. rewrite clean_unfold.
  unfold clean_steps.
  rewrite bind_run, cordova_step_ok, Hdist by done.
  set (w1 := foldl (removed chalk) w _).
  rewrite bind_run, (dist_step_no_apps chalk w1 props); [| | |done].
  2:{ unfold w1. by rewrite foldl_removed_cwd. }
  2:{ unfold w1. by rewrite read_config_cordova_step. }
  cbn -[removals errors]. unfold w1.
  rewrite foldl_removed_removals, foldl_removed_errors.
  split_and!; [by eexists|by unfold clean_targets; rewrite app_nil_r|done].
Qed.

Lemma clean_config_without_apps_witness :
  let options := Options ["clean"] false false false false false false false false
                         false true None None None None in
  let w := world0 ∅ {["/app/.angular-cli.json" := "{}"]} in
  let r := _clean plain options w in
  (∃ msg, r.1 = Throw msg)
  ∧ removals (trace r.2) = [] ++ []
  ∧ errors (trace r.2) = [].
Proof.
  apply (clean_config_without_apps plain
           (Options ["clean"] false false false false false false false false
                    false true None None None None)
           (world0 ∅ {["/app/.angular-cli.json" := "{}"]}) []); reflexivity.
Defined.

(** ** More on [_unpinIonicDependencies] *)

(** [require] of the manifest. *)
Lemma require_manifest w :
  require (pkgPath w) w
  = match files w !! resolve w (pkgPath w) ≫= parse with
    | Some pkg => (Ok pkg, w)
    | None =>
        (Throw (match files w !! resolve w (pkgPath w) with
                | None => "Cannot find module '" +:+ pkgPath w +:+ "'"
                | Some _ => pkgPath w +:+ ": Unexpected token in JSON"
                end), w)
    end.
Proof.
  unfold require. destruct (files w !! _) as [text|]; [|done]. simpl.
  by destruct (parse text).
Qed.

(** [_unpinIonicDependencies] from the value [require] returns on. *)
Lemma unpin_from_manifest chalk w pkg :
  files w !! resolve w (pkgPath w) ≫= parse = Some pkg →
  _unpinIonicDependencies chalk w
  = try_catch
      (pkg ← set_prop pkg "peerDependencies" (VObj []);
       try_catch
         (writeFileSync (pkgPath w) (default "undefined" (stringify_indent 2 pkg)))
         (λ err, _exit (chalk red ("Error writing file: " +:+ err))))
      (λ err, _exit (chalk red ("Error with ionic package: " +:+ err))) w.
Proof.
  intros Hpkg. unfold _unpinIonicDependencies.
  unfold try_catch at 1. rewrite bind_run. unfold cwd at 1. fold (pkgPath w).
  rewrite bind_run, require_manifest, Hpkg. done.
Qed.

(** The successful run on a manifest that is an object. *)
Lemma unpin_run chalk w props :
  files w !! resolve w (pkgPath w) ≫= parse = Some (VObj props) →
  (∀ data, refuses w (WriteFile (pkgPath w) data) = None) →
  ∃ text,
    ser 2 0 (VObj (obj_define props "peerDependencies" (VObj []))) = Some text
    ∧ parse text = Some (VObj (obj_define props "peerDependencies" (VObj [])))
    ∧ _unpinIonicDependencies chalk w
      = (Ok (), with_files (<[resolve w (pkgPath w) := text]> (files w))
                  (record (WriteFile (pkgPath w) text) w)).
Proof.
  intros Hpkg Hwrite.
  assert (wf (VObj props)) as [Hnd Hall]%wf_VObj.
  { destruct (files w !! _) as [t|]; [|done]. by apply (parse_wf t). }
  set (props' := obj_define props "peerDependencies" (VObj [])).
  assert (wf (VObj props')) as Hwf'.
  { apply wf_VObj. split; [by apply obj_define_NoDup|].
    apply obj_define_Forall; [done|]. apply wf_VObj.
    split; [apply NoDup_nil_2|constructor]. }
  destruct (parse_ser (VObj props') 2 0 Hwf') as (text & Hser & Hparse).
  exists text. split_and!; [done..|].
  rewrite (unpin_from_manifest chalk w (VObj props)) by done.
  unfold try_catch at 1. rewrite bind_run.
  unfold set_prop at 1, mret at 1, M_ret at 1.
  change (obj_assign props "peerDependencies" (VObj [])) with props'.
  unfold stringify_indent. rewrite Hser.
  unfold try_catch, writeFileSync. by rewrite perform_ok.
Qed.

Lemma unpin_unreadable_run chalk w :
  files w !! resolve w (pkgPath w) ≫= parse = None →
  ∃ msg,
    _unpinIonicDependencies chalk w
    = (Exit 1%Z,
       record (ConsoleError (chalk red ("Error with ionic package: " +:+ msg))) w).
Proof.
  intros Hpkg. eexists. unfold _unpinIonicDependencies.
  unfold try_catch at 1. rewrite bind_run. unfold cwd at 1. fold (pkgPath w).
  rewrite bind_run, require_manifest, Hpkg. reflexivity.
Qed.

Lemma unpin_refused_write_run chalk w props msg :
  files w !! resolve w (pkgPath w) ≫= parse = Some (VObj props) →
  (∀ data, refuses w (WriteFile (pkgPath w) data) = Some msg) →
  ∃ text,
    _unpinIonicDependencies chalk w
    = (Exit 1%Z,
       record (ConsoleError (chalk red ("Error writing file: " +:+ msg)))
         (record (WriteFile (pkgPath w) text) w)).
Proof.
  intros Hpkg Hwrite. eexists.
  rewrite (unpin_from_manifest chalk w (VObj props)) by done.
  unfold try_catch at 1. rewrite bind_run.
  unfold set_prop at 1, mret at 1, M_ret at 1.
  unfold try_catch, writeFileSync. rewrite (perform_refused _ _ _ msg) by done.
  reflexivity.
Qed.

Lemma unpin_not_object_run chalk w pkg :
  files w !! resolve w (pkgPath w) ≫= parse = Some pkg →
  match pkg with VObj _ | VArr _ => False | _ => True end →
  ∃ msg,
    _unpinIonicDependencies chalk w
    = (Exit 1%Z,
       record (ConsoleError (chalk red ("Error with ionic package: " +:+ msg))) w).
Proof.
  intros Hpkg Hkind.
  rewrite (unpin_from_manifest chalk w pkg) by done.
  unfold try_catch at 1. rewrite bind_run.
  destruct pkg; try done; eexists; reflexivity.
Qed.



(** X16.  When the host refuses the write, [_unpinIonicDependencies] prints
    [Error writing file:] with the host's message, not the message of the
    outer handler, and ends the process with status 1; the manifest is as it
    was. *)
Theorem unpin_write_refused chalk w props msg :
  files w !! resolve w (pkgPath w) ≫= parse = Some (VObj props) →
  (∀ data, refuses w (WriteFile (pkgPath w) data) = Some msg) →
  let r := _unpinIonicDependencies chalk w in
  r.1 = Exit 1%Z
  ∧ errors (trace r.2)
    = errors (trace w) ++ [chalk red ("Error writing file: " +:+ msg)]
  ∧ files r.2 = files w.
Proof.
  intros Hpkg Hwrite r. unfold r.
  destruct (unpin_refused_write_run chalk w props msg Hpkg Hwrite) as [text ->].
  cbn -[errors]. by rewrite !errors_app, app_nil_r.
Qed.

Lemma unpin_write_refused_witness :
  let w := world_denied ∅
             {["/app/node_modules/ionic-angular/package.json" := manifest_text]} in
  let r := _unpinIonicDependencies plain w in
  r.1 = Exit 1%Z
  ∧ errors (trace r.2) = [] ++ ["Error writing file: EACCES: permission denied"]
  ∧ files r.2 = files w.
Proof.
  apply (unpin_write_refused plain
           (world_denied ∅
              {["/app/node_modules/ionic-angular/package.json" := manifest_text]})
           [("name", VStr "ionic-angular");
            ("peerDependencies", VObj [("rxjs", VStr "5.5.2")]);
            ("version", VStr "3.9.2")]
           "EACCES: permission denied"); reflexivity.
Defined.

(** X17.  Running [_unpinIonicDependencies] a second time changes nothing:
    after two successful runs the files are what they were after the
    first. *)
Theorem unpin_twice chalk w props :
  files w !! resolve w (pkgPath w) ≫= parse = Some (VObj props) →
  (∀ data, refuses w (WriteFile (pkgPath w) data) = None) →
  let once := _unpinIonicDependencies chalk w in
  let twice := _unpinIonicDependencies chalk once.2 in
  once.1 = Ok () ∧ twice.1 = Ok () ∧ files twice.2 = files once.2.
Proof.
  intros Hpkg Hwrite once twice. unfold twice, once.
  destruct (unpin_run chalk w props Hpkg Hwrite) as (text & Hser & Hparse & ->).
  cbn [fst snd]. set (w1 := with_files _ _).
  destruct (unpin_run chalk w1 (obj_define props "peerDependencies" (VObj [])))
    as (text2 & Hser2 & _ & ->).
  { unfold w1. cbn -[parse]. change (resolve _ (pkgPath _)) with (resolve w (pkgPath w)).
    by rewrite lookup_insert_eq. }
  { done. }
  rewrite (obj_define_same (obj_define props _ _)) in Hser2
    by by rewrite obj_get_define, String.eqb_refl.
  simplify_eq. split_and!; [done..|].
  unfold w1. cbn. change (resolve _ (pkgPath _)) with (resolve w (pkgPath w)).
  apply insert_insert_eq.
Qed.

Lemma unpin_twice_witness :
  let w := world0 ∅ {["/app/node_modules/ionic-angular/package.json" := manifest_text]} in
  let once := _unpinIonicDependencies plain w in
  let twice := _unpinIonicDependencies plain once.2 in
  once.1 = Ok () ∧ twice.1 = Ok () ∧ files twice.2 = files once.2.
Proof.
  apply (unpin_twice plain
           (world0 ∅ {["/app/node_modules/ionic-angular/package.json" := manifest_text]})
           [("name", VStr "ionic-angular");
            ("peerDependencies", VObj [("rxjs", VStr "5.5.2")]);
            ("version", VStr "3.9.2")]); reflexivity.
Defined.

Lemma _exit_run {A} error w :
  @_exit A error w = (Exit 1%Z, record (ConsoleError error) w).
Proof. done. Qed.

Lemma unpin_writes chalk w pkg :
  files w !! resolve w (pkgPath w) ≫= parse = Some pkg →
  match pkg with VObj _ | VArr _ => True | _ => False end →
  ∃ text,
    _unpinIonicDependencies chalk w
    = try_catch (writeFileSync (pkgPath w) text)
        (λ err, _exit (chalk red ("Error writing file: " +:+ err))) w.
Proof.
  intros Hpkg Hkind. rewrite (unpin_from_manifest chalk w pkg) by done.
  unfold try_catch at 1. rewrite bind_run.
  destruct pkg as [| | | | |items|props]; try done.
  - exists (default "undefined" (stringify_indent 2 (VArr items))).
    unfold set_prop, mret, M_ret, try_catch, writeFileSync, perform.
    by destruct (refuses w _).
  - exists (default "undefined"
              (stringify_indent 2 (VObj (obj_assign props "peerDependencies" (VObj []))))).
    unfold set_prop, mret, M_ret, try_catch, writeFileSync, perform.
    by destruct (refuses w _).
Qed.

(** X18.  Whatever the host holds, [_unpinIonicDependencies] changes at most
    the manifest: the files are as before, or as before with that one file
    set.  It creates no directory, removes nothing and starts no program. *)
Theorem unpin_touches_only_manifest chalk w :
  let r := _unpinIonicDependencies chalk w in
  (files r.2 = files w
   ∨ ∃ text, files r.2 = <[resolve w (pkgPath w) := text]> (files w))
  ∧ dirs r.2 = dirs w
  ∧ removals (trace r.2) = removals (trace w)
  ∧ spawns (trace r.2) = spawns (trace w)
  ∧ execs (trace r.2) = execs (trace w).
Proof.
  intros r. unfold r.
  assert (∀ e : event, ¬ is_removal e → ¬ is_program e →
            removals (trace (record e w)) = removals (trace w)
            ∧ spawns (trace (record e w)) = spawns (trace w)
            ∧ execs (trace (record e w)) = execs (trace w)) as Hquiet.
  { intros e H1 H2. simpl. rewrite removals_app, spawns_app, execs_app.
    destruct e; simpl in *; rewrite ?app_nil_r; tauto. }
  destruct (files w !! resolve w (pkgPath w) ≫= parse) as [pkg|] eqn:Hpkg.
  2:{ destruct (unpin_unreadable_run chalk w Hpkg) as [msg ->].
      split; [by left|]. split; [done|]. apply Hquiet; simpl; tauto. }
  assert (match pkg with VObj _ | VArr _ => False | _ => True end
          ∨ match pkg with VObj _ | VArr _ => True | _ => False end) as [Hkind|Hkind]
    by (destruct pkg; tauto).
  { destruct (unpin_not_object_run chalk w pkg Hpkg Hkind) as [msg ->].
    split; [by left|]. split; [done|]. apply Hquiet; simpl; tauto. }
  destruct (unpin_writes chalk w pkg Hpkg Hkind) as [text ->].
  unfold try_catch, writeFileSync, perform.
  destruct (refuses w _) as [msg|]; cbn [fst snd].
  - split; [by left|]. split; [done|].
    rewrite _exit_run. unfold record. cbn [snd trace].
    rewrite !removals_app, !spawns_app, !execs_app. cbn. by rewrite !app_nil_r.
  - split; [right; by eexists|]. split; [done|]. apply Hquiet; simpl; tauto.
Qed.

(** X19.  A manifest that is valid JSON but [null] or not an object at all
    (a number, a string, a boolean) makes the assignment of
    [peerDependencies] throw: [_unpinIonicDependencies] prints
    [Error with ionic package:] and ends the process with status 1, without
    writing. *)
Theorem unpin_manifest_not_an_object chalk w pkg :
  files w !! resolve w (pkgPath w) ≫= parse = Some pkg →
  match pkg with VObj _ | VArr _ => False | _ => True end →
  let r := _unpinIonicDependencies chalk w in
  r.1 = Exit 1%Z
  ∧ (∃ msg, errors (trace r.2)
            = errors (trace w) ++ [chalk red ("Error with ionic package: " +:+ msg)])
  ∧ writes (trace r.2) = writes (trace w)
  ∧ files r.2 = files w.
Proof.
  intros Hpkg Hkind r. unfold r.
  destruct (unpin_not_object_run chalk w pkg Hpkg Hkind) as [msg ->].
  cbn -[errors writes]. rewrite errors_app, writes_app, app_nil_r.
  split_and!; [done|by exists msg|done..].
Qed.

Lemma unpin_manifest_not_an_object_witness :
  let w := world0 ∅ {["/app/node_modules/ionic-angular/package.json" := "null"]} in
  let r := _unpinIonicDependencies plain w in
  r.1 = Exit 1%Z
  ∧ (∃ msg, errors (trace r.2) = [] ++ ["Error with ionic package: " +:+ msg])
  ∧ writes (trace r.2) = []
  ∧ files r.2 = files w.
Proof.
  apply (unpin_manifest_not_an_object plain
           (world0 ∅ {["/app/node_modules/ionic-angular/package.json" := "null"]})
           VNull); [reflexivity|exact I].
Defined.

(** ** Which command makes which calls *)

Section calls.
Context (P : event → Prop).
Hypothesis P_log : ∀ m, P (ConsoleLog m).
Hypothesis P_error : ∀ m, P (ConsoleError m).

Lemma emits_getenv name : emits P (getenv name).
Proof. intros w. exists []. by rewrite app_nil_r. Qed.

Lemma emits_require path : emits P (require path).
Proof.
  intros w. exists []. rewrite app_nil_r. split; [|done].
  unfold require. by repeat case_match.
Qed.

Lemma emits_get_prop v k : emits P (get_prop v k).
Proof. intros w. exists []. rewrite app_nil_r. by destruct v. Qed.

Lemma emits_set_prop v k x : emits P (set_prop v k x).
Proof. intros w. exists []. rewrite app_nil_r. by destruct v. Qed.

Lemma emits_reduce {A B} (items : list A) (f : B → A → M B) :
  (∀ b a, emits P (f b a)) → ∀ init, emits P (reduce items f init).
Proof.
  intros Hf. induction items as [|x items IH]; intros init; [apply emits_ret|].
  apply emits_bind; [apply Hf|apply IH].
Qed.

Lemma emits_forEach {A} (items : list A) (f : A → M unit) :
  (∀ a, emits P (f a)) → emits P (forEach items f).
Proof.
  intros Hf. induction items as [|x items IH]; [apply emits_ret|].
  apply emits_bind; [apply Hf|done].
Qed.

Lemma emits__exit {A} error : emits P (@_exit A error).
Proof.
  unfold _exit, console_error.
  apply emits_bind; [by apply emits_emit|intros; apply emits_exit].
Qed.

Lemma emits__help appName chalk asciiLogo details :
  emits P (_help appName chalk asciiLogo details).
Proof.
  unfold _help, console_log.
  apply emits_bind; [by apply emits_emit|intros; apply emits__exit].
Qed.

Lemma emits_writeFileSync path data :
  (∀ p d, P (WriteFile p d)) → emits P (writeFileSync path data).
Proof. intros Hw. by apply emits_perform. Qed.

Lemma emits_removeSync path :
  (∀ p, P (RemovePath p)) → emits P (removeSync path).
Proof.
  intros Hr. destruct path; try apply emits_throw. by apply emits_perform.
Qed.

Lemma emits__env2json chalk vars outputFile :
  (∀ p d, P (WriteFile p d)) → emits P (_env2json chalk vars outputFile).
Proof.
  intros Hw. unfold _env2json.
  apply emits_bind; [apply emits_if; [apply emits__exit|apply emits_ret]|intros _].
  apply emits_bind.
  - apply emits_reduce. intros.
    apply emits_bind; [apply emits_getenv|intros; apply emits_ret].
  - intros env. apply emits_try_catch; [by apply emits_writeFileSync|].
    intros. apply emits__exit.
Qed.

Lemma emits__unpin chalk :
  (∀ p d, P (WriteFile p d)) → emits P (_unpinIonicDependencies chalk).
Proof.
  intros Hw. unfold _unpinIonicDependencies.
  apply emits_try_catch; [|intros; apply emits__exit].
  apply emits_bind; [apply emits_cwd|intros dir].
  apply emits_bind; [apply emits_require|intros pkg].
  apply emits_bind; [apply emits_set_prop|intros pkg'].
  apply emits_try_catch; [by apply emits_writeFileSync|intros; apply emits__exit].
Qed.

Lemma emits__remove chalk path :
  (∀ p, P (RemovePath p)) → emits P (_remove chalk path).
Proof.
  intros Hr. unfold _remove, console_log.
  apply emits_try_catch; [|intros; apply emits__exit].
  apply emits_bind; [by apply emits_removeSync|intros; by apply emits_emit].
Qed.

Lemma emits__clean chalk options :
  (∀ p, P (RemovePath p)) → emits P (_clean chalk options).
Proof.
  intros Hr. rewrite clean_unfold. unfold clean_steps, dist_step.
  apply emits_bind.
  { apply emits_if; [|apply emits_ret].
    apply emits_bind; [|intros]; by apply emits__remove. }
  intros _. apply emits_bind.
  { apply emits_if; [|apply emits_ret].
    apply emits_bind.
    - apply emits_try_catch; [|intros; apply emits__exit].
      apply emits_bind; [apply emits_cwd|intros; apply emits_require].
    - intros config. apply emits_bind; [apply emits_get_prop|intros apps].
      destruct apps; try apply emits_throw.
      apply emits_forEach. intros app.
      apply emits_bind; [apply emits_get_prop|intros; by apply emits__remove]. }
  intros _. apply emits_if; [by apply emits_removeSync|apply emits_ret].
Qed.

Lemma emits_copy_step isWin chalk options :
  (∀ p, P (EnsureDir p)) → (∀ c, P (ExecSync c)) →
  emits P (copy_step isWin chalk options).
Proof.
  intros Hd Hx. unfold copy_step, _copy, or_else, ensureDirSync, execSync, console_log.
  apply emits_try_catch; [|intros; apply emits__exit].
  apply emits_bind; [by apply emits_perform|intros _].
  assert (∀ src dest,
            emits P (try_catch (_ ← perform (ExecSync (copy_command isWin src dest))
                                      (λ w, w); mret true)
                       (λ _, mret false))) as Hcopy.
  { intros. apply emits_try_catch; [|intros; apply emits_ret].
    apply emits_bind; [by apply emits_perform|intros; apply emits_ret]. }
  apply emits_bind; [apply Hcopy|intros copied].
  apply emits_bind; [destruct copied; [apply emits_ret|apply Hcopy]|intros copied'].
  destruct copied'; [by apply emits_emit|apply emits_throw].
Qed.

Lemma emits__cordova isWin chalk options :
  (∀ c a, P (SpawnSync c a)) → (∀ p, P (EnsureDir p)) → (∀ c, P (ExecSync c)) →
  emits P (_cordova isWin chalk options).
Proof.
  intros Hs Hd Hx. unfold _cordova, spawnSync.
  apply emits_bind; [apply emits_if; [by apply emits_emit|apply emits_ret]|intros _].
  apply emits_bind; [by apply emits_emit|intros _].
  apply emits_if; [by apply emits_copy_step|apply emits_ret].
Qed.

End calls.

Lemma removals_none t : Forall (λ e, ¬ is_removal e) t → removals t = [].
Proof.
  induction 1 as [|e t He _ IH]; [done|].
  destruct e; try exact IH. by destruct He.
Qed.

Lemma writes_none t :
  Forall (λ e, match e with WriteFile _ _ => False | _ => True end) t →
  writes t = [].
Proof.
  induction 1 as [|e t He _ IH]; [done|].
  destruct e; try exact IH. by destruct He.
Qed.

Lemma programs_none t :
  Forall (λ e, ¬ is_program e) t → spawns t = [] ∧ execs t = [].
Proof.
  induction 1 as [|e t He _ [IH1 IH2]]; [done|].
  destruct e; try (split; [exact IH1|exact IH2]); by destruct He.
Qed.

(** [run] makes only calls that satisfy [P] if each handler it can reach
    does. *)
Lemma emits_run (P : event → Prop) isWin appName chalk asciiLogo this :
  (∀ m, P (ConsoleLog m)) → (∀ m, P (ConsoleError m)) →
  (opt_help (_options this) = false → ∀ cmd, _args this !! 0 = Some cmd →
     (cmd = "env2json" → ∀ p d, P (WriteFile p d))
     ∧ (cmd = "cordova" →
        (∀ c a, P (SpawnSync c a)) ∧ (∀ p, P (EnsureDir p)) ∧ (∀ c, P (ExecSync c)))
     ∧ (cmd = "clean" → ∀ p, P (RemovePath p))
     ∧ (cmd = "unpin-ionic-dependencies" → ∀ p d, P (WriteFile p d))) →
  emits P (run isWin appName chalk asciiLogo this).
Proof.
  intros Hl He Hcmd. unfold run.
  destruct (opt_help (_options this)); [by apply emits__help|].
  destruct (_args this !! 0) as [cmd|]; [|by apply emits__help].
  destruct (Hcmd eq_refl cmd eq_refl) as (H1 & H2 & H3 & H4).
  destruct (String.eqb_spec cmd "env2json"); [apply emits__env2json; auto|].
  destruct (String.eqb_spec cmd "cordova") as [e|_].
  { destruct (H2 e) as (? & ? & ?). by apply emits__cordova. }
  destruct (String.eqb_spec cmd "clean"); [apply emits__clean; auto|].
  destruct (String.eqb_spec cmd "unpin-ionic-dependencies");
    [apply emits__unpin; auto|].
  by apply emits__help.
Qed.

(** X20.  Only [clean] removes: under [--help], or for any other first
    argument, a run makes no removal call. *)
Theorem run_removes_only_for_clean isWin appName chalk asciiLogo this w :
  opt_help (_options this) = true ∨ _args this !! 0 ≠ Some "clean" →
  removals (trace (run isWin appName chalk asciiLogo this w).2) = removals (trace w).
Proof.
  intros Hcmd.
  destruct (emits_run (λ e, ¬ is_removal e) isWin appName chalk asciiLogo this)
    with (w := w) as (t & -> & Hall); [by intros ? []..| |].
  { intros Hhelp cmd Hargs. split_and!; try solve [intros; simpl; tauto].
    intros ->. destruct Hcmd; congruence. }
  by rewrite removals_app, (removals_none t Hall), app_nil_r.
Qed.

Lemma run_removes_only_for_clean_witness :
  removals (trace (run false "ngx-scripts" plain "logo"
    (Instance_ ["unpin-ionic-dependencies"] (no_options ["unpin-ionic-dependencies"]))
    (world0 ∅ ∅)).2) = [].
Proof.
  apply (run_removes_only_for_clean false "ngx-scripts" plain "logo"
    (Instance_ ["unpin-ionic-dependencies"] (no_options ["unpin-ionic-dependencies"]))
    (world0 ∅ ∅)).
  right. discriminate.
Defined.

(** X21.  Only [cordova] starts programs: under [--help], or for any other
    first argument, a run makes no [spawnSync] and no [execSync] call. *)
Theorem run_starts_programs_only_for_cordova isWin appName chalk asciiLogo this w :
  opt_help (_options this) = true ∨ _args this !! 0 ≠ Some "cordova" →
  spawns (trace (run isWin appName chalk asciiLogo this w).2) = spawns (trace w)
  ∧ execs (trace (run isWin appName chalk asciiLogo this w).2) = execs (trace w).
Proof.
  intros Hcmd.
  destruct (emits_run (λ e, ¬ is_program e) isWin appName chalk asciiLogo this)
    with (w := w) as (t & -> & Hall); [by intros ? []..| |].
  { intros Hhelp cmd Hargs. split_and!; try solve [intros; simpl; tauto].
    intros ->. destruct Hcmd; congruence. }
  destruct (programs_none t Hall) as [Hs Hx].
  by rewrite spawns_app, execs_app, Hs, Hx, !app_nil_r.
Qed.

Lemma run_starts_programs_only_for_cordova_witness :
  let r := run false "ngx-scripts" plain "logo"
             (Instance_ ["clean"; "--cordova"]
                (Options ["clean"] false false false false false false false false
                         true false None None None None))
             (world0 ∅ ∅) in
  spawns (trace r.2) = [] ∧ execs (trace r.2) = [].
Proof.
  apply (run_starts_programs_only_for_cordova false "ngx-scripts" plain "logo"
           (Instance_ ["clean"; "--cordova"]
              (Options ["clean"] false false false false false false false false
                       true false None None None None))
           (world0 ∅ ∅)).
  right. discriminate.
Defined.

(** X22.  Only [env2json] and [unpin-ionic-dependencies] write a file: under
    [--help], or for any other first argument, a run makes no
    [writeFileSync] call. *)
Theorem run_writes_only_for_env2json_and_unpin isWin appName chalk asciiLogo this w :
  opt_help (_options this) = true
  ∨ (_args this !! 0 ≠ Some "env2json"
     ∧ _args this !! 0 ≠ Some "unpin-ionic-dependencies") →
  writes (trace (run isWin appName chalk asciiLogo this w).2) = writes (trace w).
Proof.
  intros Hcmd.
  destruct (emits_run (λ e, match e with WriteFile _ _ => False | _ => True end)
              isWin appName chalk asciiLogo this)
    with (w := w) as (t & -> & Hall); [done..| |].
  { intros Hhelp cmd Hargs. split_and!; try done.
    - intros ->. destruct Hcmd as [?|[? ?]]; congruence.
    - intros ->. destruct Hcmd as [?|[? ?]]; congruence. }
  by rewrite writes_app, (writes_none t Hall), app_nil_r.
Qed.

Lemma run_writes_only_for_env2json_and_unpin_witness :
  writes (trace (run false "ngx-scripts" plain "logo"
    (Instance_ ["cordova"; "build"] (no_options ["cordova"; "build"]))
    (world0 ∅ ∅)).2) = [].
Proof.
  apply (run_writes_only_for_env2json_and_unpin false "ngx-scripts" plain "logo"
    (Instance_ ["cordova"; "build"] (no_options ["cordova"; "build"])) (world0 ∅ ∅)).
  right. split; discriminate.
Defined.

(** ** A manifest that is an array *)


